(** * user_data_validator: a schema-driven record validator

    Shallow embedding of [user_data_validator.py] and the properties its
    specification states about it.

    - Python values are a tagged union [pyval]; the built-ins the program
      calls ([isinstance], [==], [len], [repr], [re.match]) are modelled
      next to it.
    - A rule spec is a Python dict with a fixed set of optional keys: a
      record of [option]s, [None] meaning that the key is absent.
    - A record ([user_data]) is a dict used as a map: a [gmap string pyval],
      living in an object store, since the case generator copies and
      mutates such dicts.
    - [spec['type']], [spec['enum'][0]] and [user_data[field]] can raise:
      stateful, fallible code runs in the monad [M].
    - [manual_test_case_input] reads and writes the console: it runs in the
      monad [IO], over the store, the lines of standard input and the text
      written to standard output.
    - [run_test_cases] and [main] print dicts, whose rendering follows the
      insertion order of the keys, which the store does not keep, and
      [load_schema] reads a file: they are not modelled. *)

From Stdlib Require Import ZArith String Ascii DecimalString.
From stdpp Require Import gmap strings list.

Open Scope Z_scope.

(** ** Python values *)

Inductive pyval :=
| VStr (s : string)
| VInt (n : Z)
| VBool (b : bool)
| VNone.

Module Py.

(** [isinstance(v, str)] *)
Definition isinstance_str (v : pyval) : bool :=
  match v with VStr _ => true | _ => false end.

(** [isinstance(v, bool)] *)
Definition isinstance_bool (v : pyval) : bool :=
  match v with VBool _ => true | _ => false end.

(** [isinstance(v, int)]: in Python [bool] is a subclass of [int], so the
    test holds of [True] and [False] as well. *)
Definition isinstance_int (v : pyval) : bool :=
  match v with VInt _ | VBool _ => true | _ => false end.

(** The integer a value stands for in an arithmetic comparison
    ([True] is 1, [False] is 0); only consulted under [isinstance_int]. *)
Definition int_of (v : pyval) : Z :=
  match v with
  | VInt n => n
  | VBool b => if b then 1 else 0
  | _ => 0
  end.

Definition str_of (v : pyval) : string :=
  match v with VStr s => s | _ => EmptyString end.

(** [len(s)] *)
Definition len (s : string) : Z := Z.of_nat (String.length s).

(** Python's [==] on these values: numbers compare by value, also
    between [bool] and [int]. *)
Definition eqb (v w : pyval) : bool :=
  match v, w with
  | VStr s, VStr t => String.eqb s t
  | (VInt _ | VBool _), (VInt _ | VBool _) => int_of v =? int_of w
  | VNone, VNone => true
  | _, _ => false
  end.

(** [v in l] for a list [l] *)
Definition contains (l : list pyval) (v : pyval) : bool :=
  existsb (eqb v) l.

(** [s * n] for a string [s]: the empty string when [n <= 0]. *)
Fixpoint str_repeat (s : string) (n : nat) : string :=
  match n with
  | O => EmptyString
  | S n' => s +:+ str_repeat s n'
  end.

Definition str_mul (s : string) (n : Z) : string := str_repeat s (Z.to_nat n).

(** [str(n)] for an integer *)
Definition str_of_Z (n : Z) : string := NilZero.string_of_int (Z.to_int n).

(** *** [repr]
    Characters are code points below 256. [repr] of a string quotes it
    with ['], or with the double quote when the string holds a ['] and
    no double quote, and escapes the backslash, the quote in use and
    every character that is not printable. *)

Definition squote : ascii := "039"%char.
Definition dquote : ascii := "034"%char.
Definition backslash : ascii := "092"%char.

Fixpoint mem_char (c : ascii) (s : string) : bool :=
  match s with
  | EmptyString => false
  | String d s' => Ascii.eqb c d || mem_char c s'
  end.

Definition hex_digit (n : nat) : ascii :=
  match n with
  | 0 => "0" | 1 => "1" | 2 => "2" | 3 => "3" | 4 => "4" | 5 => "5"
  | 6 => "6" | 7 => "7" | 8 => "8" | 9 => "9" | 10 => "a" | 11 => "b"
  | 12 => "c" | 13 => "d" | 14 => "e" | _ => "f"
  end%nat%char.

Definition printable (c : ascii) : bool :=
  let n := nat_of_ascii c in
  ((32 <=? n) && (n <=? 126) || (161 <=? n) && negb (n =? 173))%nat.

Definition repr_char (quote c : ascii) : string :=
  if Ascii.eqb c quote || Ascii.eqb c backslash then String backslash (String c EmptyString)
  else if Ascii.eqb c "009" then String backslash "t"
  else if Ascii.eqb c "010" then String backslash "n"
  else if Ascii.eqb c "013" then String backslash "r"
  else if printable c then String c EmptyString
  else let n := nat_of_ascii c in
       String backslash
         (String "x" (String (hex_digit (n / 16)) (String (hex_digit (n mod 16)) EmptyString))).

Fixpoint repr_chars (quote : ascii) (s : string) : string :=
  match s with
  | EmptyString => EmptyString
  | String c s' => repr_char quote c +:+ repr_chars quote s'
  end.

Definition repr_str (s : string) : string :=
  let quote := if mem_char squote s && negb (mem_char dquote s) then dquote else squote in
  String quote (repr_chars quote s) +:+ String quote EmptyString.

Definition repr (v : pyval) : string :=
  match v with
  | VStr s => repr_str s
  | VInt n => str_of_Z n
  | VBool b => if b then "True" else "False"
  | VNone => "None"
  end.

Fixpoint join (sep : string) (l : list string) : string :=
  match l with
  | [] => EmptyString
  | [x] => x
  | x :: l' => x +:+ sep +:+ join sep l'
  end.

(** [repr] of a list, as an f-string renders [{spec['enum']}] *)
Definition repr_list (l : list pyval) : string :=
  "[" +:+ join ", " (map repr l) +:+ "]".

End Py.

(** ** Regular expressions: [re.match]

    A pattern is taken in compiled form, over the fragment of Python's
    syntax made of literals, [.], [^], [$], concatenation, [|] and [*].
    [matches s r i j] says that [r] matches the characters of [s] from
    position [i] up to position [j]. Without flags, [^] holds at position 0
    only, [$] at the end of the string or before a final newline, and [.]
    stands for any character but the newline. *)

Inductive regex :=
| Eps
| Chr (c : ascii)
| Dot
| Bol
| Eol
| Cat (r1 r2 : regex)
| Alt (r1 r2 : regex)
| Star (r : regex).

Definition newline : ascii := "010"%char.

Inductive matches (s : list ascii) : regex -> nat -> nat -> Prop :=
| m_eps i : matches s Eps i i
| m_chr c i : s !! i = Some c -> matches s (Chr c) i (S i)
| m_dot c i : s !! i = Some c -> c <> newline -> matches s Dot i (S i)
| m_bol : matches s Bol 0 0
| m_eol_end : matches s Eol (length s) (length s)
| m_eol_nl i : s !! i = Some newline -> S i = length s -> matches s Eol i i
| m_cat r1 r2 i j k : matches s r1 i j -> matches s r2 j k -> matches s (Cat r1 r2) i k
| m_alt_l r1 r2 i j : matches s r1 i j -> matches s (Alt r1 r2) i j
| m_alt_r r1 r2 i j : matches s r2 i j -> matches s (Alt r1 r2) i j
| m_star_nil r i : matches s (Star r) i i
| m_star_cons r i j k :
    matches s r i j -> matches s (Star r) j k -> matches s (Star r) i k.

Module Re.

(** The end positions reachable by iterating [step] from [i]; an
    iteration that does not advance adds nothing new, so only advancing
    ones are followed, and [fuel] bounds their number. *)
Fixpoint star_ends (step : nat -> list nat) (fuel : nat) (i : nat) : list nat :=
  i :: match fuel with
       | O => []
       | S fuel' =>
           flat_map (fun j => if (i <? j)%nat then star_ends step fuel' j else [])
                    (step i)
       end.

(** All positions [j] such that [r] matches [s] from [i] to [j]. *)
Fixpoint ends (r : regex) (s : list ascii) (i : nat) : list nat :=
  match r with
  | Eps => [i]
  | Chr c =>
      match s !! i with
      | Some d => if Ascii.eqb c d then [S i] else []
      | None => []
      end
  | Dot =>
      match s !! i with
      | Some d => if Ascii.eqb d newline then [] else [S i]
      | None => []
      end
  | Bol => if (i =? 0)%nat then [i] else []
  | Eol =>
      if (i =? length s)%nat then [i]
      else match s !! i with
           | Some d => if Ascii.eqb d newline && (length s =? S i)%nat then [i] else []
           | None => []
           end
  | Cat r1 r2 => flat_map (ends r2 s) (ends r1 s i)
  | Alt r1 r2 => ends r1 s i ++ ends r2 s i
  | Star r' => star_ends (ends r' s) (length s - i) i
  end.

(** [re.match(r, s)] finds a match: one that starts at position 0. *)
Definition match_ (r : regex) (s : string) : bool :=
  match ends r (list_ascii_of_string s) 0 with
  | [] => false
  | _ :: _ => true
  end.

(** [re.search(r, s)] finds a match: one that starts at any position.
    The program does not call it; it is what [match_] is compared with. *)
Definition search (r : regex) (s : string) : bool :=
  let l := list_ascii_of_string s in
  existsb (fun i => match ends r l i with [] => false | _ :: _ => true end)
          (seq 0 (S (length l))).

End Re.

(** ** Rule specs and schemas *)

(** The dict of one field's rules. Every key is optional. *)
Record RuleSpec := {
  type : option string;
  min_length : option Z;
  max_length : option Z;
  pattern : option regex;
  enum : option (list pyval);
  minimum : option Z;
  maximum : option Z
}.

(** The schema dict: [properties] in declaration order (a dict iterates in
    insertion order), and the [required] list. Both keys may be absent. *)
Record Schema := {
  properties : option (list (string * RuleSpec));
  required : option (list string)
}.

(** [schema.get('properties', {}).items()] *)
Definition items (schema : Schema) : list (string * RuleSpec) :=
  default [] (properties schema).

(** ** validate_field *)

(** [errors.append(msg)] under a condition: the list is unchanged when the
    condition fails. *)
Definition append_if (c : bool) (msg : string) (errors : list string) : list string :=
  if c then errors ++ [msg] else errors.

Definition validate_field (field : string) (value : pyval) (spec : RuleSpec) : list string :=
  let errors := [] in
  let errors :=
    match type spec with
    | Some t =>
        if String.eqb t "string" then
          append_if (negb (Py.isinstance_str value)) (field +:+ " should be a string.") errors
        else if String.eqb t "integer" then
          append_if (negb (Py.isinstance_int value)) (field +:+ " should be an integer.") errors
        else if String.eqb t "boolean" then
          append_if (negb (Py.isinstance_bool value)) (field +:+ " should be a boolean.") errors
        else errors
    | None => errors
    end in
  let errors :=
    match min_length spec with
    | Some n =>
        if Py.isinstance_str value then
          append_if (Py.len (Py.str_of value) <? n)
            (field +:+ " should be at least " +:+ Py.str_of_Z n +:+ " characters.") errors
        else errors
    | None => errors
    end in
  let errors :=
    match max_length spec with
    | Some n =>
        if Py.isinstance_str value then
          append_if (Py.len (Py.str_of value) >? n)
            (field +:+ " should be at most " +:+ Py.str_of_Z n +:+ " characters.") errors
        else errors
    | None => errors
    end in
  let errors :=
    match pattern spec with
    | Some r =>
        if Py.isinstance_str value then
          append_if (negb (Re.match_ r (Py.str_of value)))
            (field +:+ " does not match required pattern.") errors
        else errors
    | None => errors
    end in
  let errors :=
    match enum spec with
    | Some l =>
        append_if (negb (Py.contains l value))
          (field +:+ " must be one of " +:+ Py.repr_list l +:+ ".") errors
    | None => errors
    end in
  let errors :=
    match minimum spec with
    | Some n =>
        if Py.isinstance_int value then
          append_if (Py.int_of value <? n)
            (field +:+ " must be at least " +:+ Py.str_of_Z n +:+ ".") errors
        else errors
    | None => errors
    end in
  let errors :=
    match maximum spec with
    | Some n =>
        if Py.isinstance_int value then
          append_if (Py.int_of value >? n)
            (field +:+ " must be at most " +:+ Py.str_of_Z n +:+ ".") errors
        else errors
    | None => errors
    end in
  errors.

(** ** The object store and the monad of stateful, fallible code *)

Inductive exn :=
| KeyError (key : string)
| IndexError.

Inductive outcome (A : Type) :=
| Ok (a : A)
| Raise (e : exn).
Arguments Ok {A} a.
Arguments Raise {A} e.

(** A variable holding a dict holds a reference to it: a location of the
    store. Locations are indices, and a new object is put at the end.
    Every location a program holds is allocated; [deref] reads an
    unallocated one as the empty dict. *)
Abbreviation loc := nat.
Abbreviation heap := (list (gmap string pyval)).

Definition deref (h : heap) (l : loc) : gmap string pyval := default ∅ (h !! l).

Definition M (A : Type) : Type := heap -> outcome A * heap.

#[export] Instance M_ret : MRet M := fun A a h => (Ok a, h).
#[export] Instance M_bind : MBind M := fun A B f m h =>
  match m h with
  | (Ok a, h') => f a h'
  | (Raise e, h') => (Raise e, h')
  end.

Definition raise {A} (e : exn) : M A := fun h => (Raise e, h).

(** [for x in l: acc = body(acc, x)], the local variables the loop updates
    being threaded as [acc]. *)
Fixpoint foldM {A B} (body : A -> B -> M A) (acc : A) (l : list B) : M A :=
  match l with
  | [] => mret acc
  | x :: l' => acc' ← body acc x; foldM body acc' l'
  end.

(** [{}] *)
Definition dict_new : M loc := fun h => (Ok (length h), h ++ [∅]).

(** [d.copy()] *)
Definition dict_copy (d : loc) : M loc := fun h => (Ok (length h), h ++ [deref h d]).

(** [d[k] = v] *)
Definition dict_setitem (d : loc) (k : string) (v : pyval) : M unit :=
  fun h => (Ok tt, <[d := <[k := v]> (deref h d)]> h).

(** [k in d] *)
Definition dict_contains (d : loc) (k : string) : M bool :=
  fun h => (Ok (bool_decide (is_Some (deref h d !! k))), h).

(** [d[k]] *)
Definition dict_getitem (d : loc) (k : string) : M pyval :=
  fun h => match deref h d !! k with
           | Some v => (Ok v, h)
           | None => (Raise (KeyError k), h)
           end.

(** ** validate_data *)

(** [schema.get('required', []) and field in schema['required']]: the
    second operand is evaluated only when the list is there and not
    empty. *)
Definition is_required (schema : Schema) (field : string) : bool :=
  match default [] (required schema) with
  | [] => false
  | _ :: _ => existsb (String.eqb field) (default [] (required schema))
  end.

(** The body of the loop of [validate_data]. *)
Definition validate_data_step (schema : Schema) (user_data : loc)
    (errors : list string) (item : string * RuleSpec) : M (list string) :=
  let '(field, spec) := item in
  present ← dict_contains user_data field;
  if negb present then
    if is_required schema field
    then mret (errors ++ [field +:+ " is required."])
    else mret errors
  else
    value ← dict_getitem user_data field;
    mret (errors ++ validate_field field value spec).

Definition validate_data (schema : Schema) (user_data : loc) : M (list string) :=
  foldM (validate_data_step schema user_data) [] (items schema).

(** ** generate_test_cases *)

(** [spec['type']] *)
Definition spec_type (spec : RuleSpec) : M string :=
  match type spec with
  | Some t => mret t
  | None => raise (KeyError "type")
  end.

(** [l[0]] *)
Definition first (l : list pyval) : M pyval :=
  match l with
  | x :: _ => mret x
  | [] => raise IndexError
  end.

(** The body of the first loop: the value of one field of the valid case. *)
Definition valid_case_step (valid_case : loc) (_ : unit) (item : string * RuleSpec) : M unit :=
  let '(field, spec) := item in
  t ← spec_type spec;
  if String.eqb t "string" then
    match enum spec with
    | Some l => v ← first l; dict_setitem valid_case field v
    | None =>
        match min_length spec with
        | Some n => dict_setitem valid_case field (VStr (Py.str_mul "x" n))
        | None => dict_setitem valid_case field (VStr "test")
        end
    end
  else if String.eqb t "integer" then
    dict_setitem valid_case field (VInt (default 0 (minimum spec)))
  else if String.eqb t "boolean" then
    dict_setitem valid_case field (VBool true)
  else
    dict_setitem valid_case field VNone.

(** [invalid = valid_case.copy(); invalid[field] = v;
    cases.append((label, invalid))] *)
Definition add_invalid (valid_case : loc) (field label : string) (v : pyval)
    (cases : list (string * loc)) : M (list (string * loc)) :=
  invalid ← dict_copy valid_case;
  dict_setitem invalid field v;;
  mret (cases ++ [(label, invalid)]).

(** The body of the second loop: the invalid cases of one field. *)
Definition invalid_cases_step (valid_case : loc) (cases : list (string * loc))
    (item : string * RuleSpec) : M (list (string * loc)) :=
  let '(field, spec) := item in
  t ← spec_type spec;
  cases ←
    (if String.eqb t "string" then
       cases ←
         match min_length spec with
         | Some _ => add_invalid valid_case field (field +:+ ": too short") (VStr "") cases
         | None => mret cases
         end;
       match pattern spec with
       | Some _ => add_invalid valid_case field (field +:+ ": invalid pattern") (VStr "invalid") cases
       | None => mret cases
       end
     else mret cases);
  t ← spec_type spec;
  cases ←
    (if String.eqb t "integer" then
       cases ←
         match minimum spec with
         | Some n => add_invalid valid_case field (field +:+ ": below minimum") (VInt (n - 1)) cases
         | None => mret cases
         end;
       match maximum spec with
       | Some n => add_invalid valid_case field (field +:+ ": above maximum") (VInt (n + 1)) cases
       | None => mret cases
       end
     else mret cases);
  match enum spec with
  | Some _ => add_invalid valid_case field (field +:+ ": not in enum") (VStr "not-in-enum") cases
  | None => mret cases
  end.

(** The first half of [generate_test_cases]: the valid case. *)
Definition build_valid_case (schema : Schema) : M loc :=
  valid_case ← dict_new;
  foldM (valid_case_step valid_case) tt (items schema);;
  mret valid_case.

(** The second half: the invalid cases, appended to [cases]. *)
Definition build_invalid_cases (schema : Schema) (valid_case : loc)
    (cases : list (string * loc)) : M (list (string * loc)) :=
  foldM (invalid_cases_step valid_case) cases (items schema).

Definition generate_test_cases (schema : Schema) : M (list (string * loc)) :=
  let cases := [] in
  valid_case ← build_valid_case schema;
  let cases := cases ++ [("Valid case", valid_case)] in
  cases ← build_invalid_cases schema valid_case cases;
  mret cases.

(** ** The schema of the specification's example *)


Definition example_schema : Schema :=
  {| properties := Some
       [ ("name", {| type := Some "string"; min_length := Some 2; max_length := None;
                     pattern := None; enum := None; minimum := None; maximum := None |});
         ("age", {| type := Some "integer"; min_length := None; max_length := None;
                    pattern := None; enum := None; minimum := Some 0; maximum := Some 120 |}) ];
     required := Some ["name"] |}.

(** ** Vocabulary of the properties *)

(** The kinds of rule of a spec, and the order in which [validate_field]
    checks them. *)
Inductive rule :=
| RType | RMinLength | RMaxLength | RPattern | REnum | RMinimum | RMaximum.

Definition rule_order : list rule :=
  [RType; RMinLength; RMaxLength; RPattern; REnum; RMinimum; RMaximum].

(** The spec that keeps the rule of kind [k] of [spec] and nothing else. *)
Definition only (k : rule) (spec : RuleSpec) : RuleSpec :=
  match k with
  | RType => {| type := type spec; min_length := None; max_length := None;
                pattern := None; enum := None; minimum := None; maximum := None |}
  | RMinLength => {| type := None; min_length := min_length spec; max_length := None;
                     pattern := None; enum := None; minimum := None; maximum := None |}
  | RMaxLength => {| type := None; min_length := None; max_length := max_length spec;
                     pattern := None; enum := None; minimum := None; maximum := None |}
  | RPattern => {| type := None; min_length := None; max_length := None;
                   pattern := pattern spec; enum := None; minimum := None; maximum := None |}
  | REnum => {| type := None; min_length := None; max_length := None;
                pattern := None; enum := enum spec; minimum := None; maximum := None |}
  | RMinimum => {| type := None; min_length := None; max_length := None;
                   pattern := None; enum := None; minimum := minimum spec; maximum := None |}
  | RMaximum => {| type := None; min_length := None; max_length := None;
                   pattern := None; enum := None; minimum := None; maximum := maximum spec |}
  end.

(** When a value violates the rule of kind [k] of a spec, as the
    specification defines it, on the kind of the value: text, whole number,
    boolean or the null placeholder. The kinds are disjoint, a boolean is
    not a whole number; the length and pattern rules bear on text only and
    the range rules on whole numbers only; an enum is violated by a value
    that is [==] to none of its elements. *)
Definition violates (k : rule) (value : pyval) (spec : RuleSpec) : bool :=
  match k with
  | RType =>
      match type spec with
      | Some t =>
          if String.eqb t "string" then
            match value with VStr _ => false | _ => true end
          else if String.eqb t "integer" then
            match value with VInt _ => false | _ => true end
          else if String.eqb t "boolean" then
            match value with VBool _ => false | _ => true end
          else false
      | None => false
      end
  | RMinLength =>
      match min_length spec, value with
      | Some n, VStr s => Py.len s <? n
      | _, _ => false
      end
  | RMaxLength =>
      match max_length spec, value with
      | Some n, VStr s => n <? Py.len s
      | _, _ => false
      end
  | RPattern =>
      match pattern spec, value with
      | Some r, VStr s => negb (Re.match_ r s)
      | _, _ => false
      end
  | REnum =>
      match enum spec with
      | Some l => negb (Py.contains l value)
      | None => false
      end
  | RMinimum =>
      match minimum spec, value with
      | Some n, VInt m => m <? n
      | _, _ => false
      end
  | RMaximum =>
      match maximum spec, value with
      | Some n, VInt m => n <? m
      | _, _ => false
      end
  end.

(** The message of the rule of kind [k] of a spec, for a field: the
    templates of the specification. There is none when the spec has no
    such rule, or a type that is not one of the three. *)
Definition message (k : rule) (field : string) (spec : RuleSpec) : option string :=
  match k with
  | RType =>
      match type spec with
      | Some t =>
          if String.eqb t "string" then Some (field +:+ " should be a string.")
          else if String.eqb t "integer" then Some (field +:+ " should be an integer.")
          else if String.eqb t "boolean" then Some (field +:+ " should be a boolean.")
          else None
      | None => None
      end
  | RMinLength =>
      match min_length spec with
      | Some n =>
          Some (field +:+ " should be at least " +:+ Py.str_of_Z n +:+ " characters.")
      | None => None
      end
  | RMaxLength =>
      match max_length spec with
      | Some n =>
          Some (field +:+ " should be at most " +:+ Py.str_of_Z n +:+ " characters.")
      | None => None
      end
  | RPattern =>
      match pattern spec with
      | Some _ => Some (field +:+ " does not match required pattern.")
      | None => None
      end
  | REnum =>
      match enum spec with
      | Some l => Some (field +:+ " must be one of " +:+ Py.repr_list l +:+ ".")
      | None => None
      end
  | RMinimum =>
      match minimum spec with
      | Some n => Some (field +:+ " must be at least " +:+ Py.str_of_Z n +:+ ".")
      | None => None
      end
  | RMaximum =>
      match maximum spec with
      | Some n => Some (field +:+ " must be at most " +:+ Py.str_of_Z n +:+ ".")
      | None => None
      end
  end.

(** [spec] with its [type] key removed. *)
Definition without_type (spec : RuleSpec) : RuleSpec :=
  {| type := None; min_length := min_length spec; max_length := max_length spec;
     pattern := pattern spec; enum := enum spec; minimum := minimum spec;
     maximum := maximum spec |}.

(** [schema] with [p] for its properties. *)
Definition with_properties (schema : Schema) (p : list (string * RuleSpec)) : Schema :=
  {| properties := Some p; required := required schema |}.

(** The seven checks of [validate_field], each as the function it applies
    to the list [errors]: [validate_field] is their composition, see
    [validate_field_checks]. *)
Definition check_type (field : string) (value : pyval) (spec : RuleSpec)
    (errors : list string) : list string :=
  match type spec with
  | Some t =>
      if String.eqb t "string" then
        append_if (negb (Py.isinstance_str value)) (field +:+ " should be a string.") errors
      else if String.eqb t "integer" then
        append_if (negb (Py.isinstance_int value)) (field +:+ " should be an integer.") errors
      else if String.eqb t "boolean" then
        append_if (negb (Py.isinstance_bool value)) (field +:+ " should be a boolean.") errors
      else errors
  | None => errors
  end.

Definition check_min_length (field : string) (value : pyval) (spec : RuleSpec)
    (errors : list string) : list string :=
  match min_length spec with
  | Some n =>
      if Py.isinstance_str value then
        append_if (Py.len (Py.str_of value) <? n)
          (field +:+ " should be at least " +:+ Py.str_of_Z n +:+ " characters.") errors
      else errors
  | None => errors
  end.

Definition check_max_length (field : string) (value : pyval) (spec : RuleSpec)
    (errors : list string) : list string :=
  match max_length spec with
  | Some n =>
      if Py.isinstance_str value then
        append_if (Py.len (Py.str_of value) >? n)
          (field +:+ " should be at most " +:+ Py.str_of_Z n +:+ " characters.") errors
      else errors
  | None => errors
  end.

Definition check_pattern (field : string) (value : pyval) (spec : RuleSpec)
    (errors : list string) : list string :=
  match pattern spec with
  | Some r =>
      if Py.isinstance_str value then
        append_if (negb (Re.match_ r (Py.str_of value)))
          (field +:+ " does not match required pattern.") errors
      else errors
  | None => errors
  end.

Definition check_enum (field : string) (value : pyval) (spec : RuleSpec)
    (errors : list string) : list string :=
  match enum spec with
  | Some l =>
      append_if (negb (Py.contains l value))
        (field +:+ " must be one of " +:+ Py.repr_list l +:+ ".") errors
  | None => errors
  end.

Definition check_minimum (field : string) (value : pyval) (spec : RuleSpec)
    (errors : list string) : list string :=
  match minimum spec with
  | Some n =>
      if Py.isinstance_int value then
        append_if (Py.int_of value <? n)
          (field +:+ " must be at least " +:+ Py.str_of_Z n +:+ ".") errors
      else errors
  | None => errors
  end.

Definition check_maximum (field : string) (value : pyval) (spec : RuleSpec)
    (errors : list string) : list string :=
  match maximum spec with
  | Some n =>
      if Py.isinstance_int value then
        append_if (Py.int_of value >? n)
          (field +:+ " must be at most " +:+ Py.str_of_Z n +:+ ".") errors
      else errors
  | None => errors
  end.

Definition check (k : rule) :=
  match k with
  | RType => check_type
  | RMinLength => check_min_length
  | RMaxLength => check_max_length
  | RPattern => check_pattern
  | REnum => check_enum
  | RMinimum => check_minimum
  | RMaximum => check_maximum
  end.

(** The spec that declares a type and nothing else, and the one that
    declares a range and nothing else. *)
Definition type_spec (t : string) : RuleSpec :=
  {| type := Some t; min_length := None; max_length := None; pattern := None;
     enum := None; minimum := None; maximum := None |}.

Definition range_spec (lo hi : option Z) : RuleSpec :=
  {| type := None; min_length := None; max_length := None; pattern := None;
     enum := None; minimum := lo; maximum := hi |}.

Definition pattern_spec (r : regex) : RuleSpec :=
  {| type := None; min_length := None; max_length := None; pattern := Some r;
     enum := None; minimum := None; maximum := None |}.

(** What one declared field adds to the output of [validate_data], for the
    record [d]. *)
Definition field_errors (schema : Schema) (d : gmap string pyval)
    (item : string * RuleSpec) : list string :=
  match d !! item.1 with
  | None => if is_required schema item.1 then [item.1 +:+ " is required."] else []
  | Some v => validate_field item.1 v item.2
  end.

(** The value the first loop of [generate_test_cases] gives a field, or
    the exception it raises on it. *)
Definition baseline_value (spec : RuleSpec) : outcome pyval :=
  match type spec with
  | None => Raise (KeyError "type")
  | Some t =>
      if String.eqb t "string" then
        match enum spec with
        | Some [] => Raise IndexError
        | Some (x :: _) => Ok x
        | None =>
            match min_length spec with
            | Some n => Ok (VStr (Py.str_mul "x" n))
            | None => Ok (VStr "test")
            end
        end
      else if String.eqb t "integer" then Ok (VInt (default 0 (minimum spec)))
      else if String.eqb t "boolean" then Ok (VBool true)
      else Ok VNone
  end.

(** The dict the first loop turns [d] into, over the properties [p]. *)
Fixpoint baseline_record (p : list (string * RuleSpec)) (d : gmap string pyval)
  : outcome (gmap string pyval) :=
  match p with
  | [] => Ok d
  | (field, spec) :: p' =>
      match baseline_value spec with
      | Ok v => baseline_record p' (<[field := v]> d)
      | Raise e => Raise e
      end
  end.

(** An invalid case to derive: the field to overwrite, the label of the
    case and the value to write. *)
Record variant := { v_field : string; v_label : string; v_value : pyval }.

(** The invalid cases the second loop derives for one field. *)
Definition variants (field : string) (spec : RuleSpec) : list variant :=
  match type spec with
  | None => []
  | Some t =>
      (if String.eqb t "string" then
         match min_length spec with
         | Some _ => [ {| v_field := field; v_label := field +:+ ": too short";
                          v_value := VStr "" |} ]
         | None => []
         end ++
         match pattern spec with
         | Some _ => [ {| v_field := field; v_label := field +:+ ": invalid pattern";
                          v_value := VStr "invalid" |} ]
         | None => []
         end
       else []) ++
      (if String.eqb t "integer" then
         match minimum spec with
         | Some n => [ {| v_field := field; v_label := field +:+ ": below minimum";
                          v_value := VInt (n - 1) |} ]
         | None => []
         end ++
         match maximum spec with
         | Some n => [ {| v_field := field; v_label := field +:+ ": above maximum";
                          v_value := VInt (n + 1) |} ]
         | None => []
         end
       else []) ++
      match enum spec with
      | Some _ => [ {| v_field := field; v_label := field +:+ ": not in enum";
                       v_value := VStr "not-in-enum" |} ]
      | None => []
      end
  end.

Definition all_variants (p : list (string * RuleSpec)) : list variant :=
  concat (map (fun item => variants item.1 item.2) p).

(** The cases of a list of variants, their dicts being allocated one after
    the other from location [n] on. *)
Fixpoint alloc_cases (n : loc) (vs : list variant) : list (string * loc) :=
  match vs with
  | [] => []
  | x :: vs' => (v_label x, n) :: alloc_cases (S n) vs'
  end.

(** The dict of a variant: a copy of [base] with one field overwritten. *)
Definition variant_record (base : gmap string pyval) (x : variant) : gmap string pyval :=
  <[v_field x := v_value x]> base.

(** [enum] is absent from [spec], or holds [v]. *)
Definition enum_admits (spec : RuleSpec) (v : pyval) : bool :=
  match enum spec with
  | Some l => Py.contains l v
  | None => true
  end.

Definition absent {A} (o : option A) : bool :=
  match o with Some _ => false | None => true end.

(** The fields the specification promises a clean baseline for: no
    pattern, and either rules among min_length, enum and minimum only, or
    the type boolean. *)
Definition promised_clean (spec : RuleSpec) : bool :=
  absent (pattern spec)
  && (absent (max_length spec) && absent (maximum spec)
      || match type spec with Some t => String.eqb t "boolean" | None => false end).

(** The fields whose baseline value passes validation: those of
    [promised_clean] such that, in addition, an enum holds the value the
    generator picks and the first element of the enum of a string field is
    a string of at least [min_length] characters. A boolean field with a
    minimum or a maximum is left out. *)
Definition baseline_safe (spec : RuleSpec) : bool :=
  absent (pattern spec)
  && match type spec with
     | None => false
     | Some t =>
         if String.eqb t "string" then
           absent (max_length spec) && absent (maximum spec)
           && match enum spec with
              | Some (VStr s :: _) =>
                  match min_length spec with
                  | Some n => n <=? Py.len s
                  | None => true
                  end
              | Some _ => false
              | None => true
              end
         else if String.eqb t "integer" then
           absent (max_length spec) && absent (maximum spec)
           && enum_admits spec (VInt (default 0 (minimum spec)))
         else if String.eqb t "boolean" then
           enum_admits spec (VBool true)
           && absent (minimum spec) && absent (maximum spec)
         else
           absent (max_length spec) && absent (maximum spec)
           && enum_admits spec VNone
     end.

(** Schemas on which the baseline is not clean. *)
Definition enum_min_length_schema : Schema :=
  {| properties := Some
       [ ("tag", {| type := Some "string"; min_length := Some 2; max_length := None;
                    pattern := None; enum := Some [VStr "a"; VStr "bc"];
                    minimum := None; maximum := None |}) ];
     required := None |}.

Definition integer_enum_schema : Schema :=
  {| properties := Some
       [ ("level", {| type := Some "integer"; min_length := None; max_length := None;
                      pattern := None; enum := Some [VInt 1; VInt 2; VInt 3];
                      minimum := None; maximum := None |}) ];
     required := None |}.

Definition boolean_enum_schema : Schema :=
  {| properties := Some
       [ ("flag", {| type := Some "boolean"; min_length := None; max_length := None;
                     pattern := None; enum := Some [VBool false];
                     minimum := None; maximum := None |}) ];
     required := None |}.

Definition date_enum_schema : Schema :=
  {| properties := Some
       [ ("born", {| type := Some "date"; min_length := None; max_length := None;
                     pattern := None; enum := Some [VStr "today"];
                     minimum := None; maximum := None |}) ];
     required := None |}.




(** What the rules of a spec ask of a value, rule by rule. *)
Definition conforms (value : pyval) (spec : RuleSpec) : Prop :=
  (type spec = Some "string" -> Py.isinstance_str value = true)
  /\ (type spec = Some "integer" -> Py.isinstance_int value = true)
  /\ (type spec = Some "boolean" -> Py.isinstance_bool value = true)
  /\ (forall n s, min_length spec = Some n -> value = VStr s -> n <= Py.len s)
  /\ (forall n s, max_length spec = Some n -> value = VStr s -> Py.len s <= n)
  /\ (forall r s, pattern spec = Some r -> value = VStr s ->
                  exists j, matches (list_ascii_of_string s) r 0%nat j)
  /\ (forall l, enum spec = Some l -> exists w, In w l /\ Py.eqb value w = true)
  /\ (forall n, minimum spec = Some n -> Py.isinstance_int value = true ->
                n <= Py.int_of value)
  /\ (forall n, maximum spec = Some n -> Py.isinstance_int value = true ->
                Py.int_of value <= n).

(** [schema] with [req] for its required list. *)
Definition with_required (schema : Schema) (req : option (list string)) : Schema :=
  {| properties := properties schema; required := req |}.

(** A string that breaks five rules at once. *)
Definition five_rules_spec : RuleSpec :=
  {| type := Some "integer"; min_length := Some 5; max_length := Some 2;
     pattern := Some (Chr "z"); enum := Some [VStr "x"]; minimum := Some 0;
     maximum := Some 9 |}.

(** ** The interactive part: manual_test_case_input *)

(** The built-ins that the interactive part applies to the text the user
    types, taken as given: [int(s)], with [None] for a [ValueError], and
    [s.lower()]. *)
Record Builtins := {
  py_int : string -> option Z;
  py_lower : string -> string
}.

(** The console beside the object store: the lines still to be read from
    standard input, and what was written to standard output, oldest
    first. *)
Record world := {
  w_heap : heap;
  w_stdin : list string;
  w_stdout : list string
}.

Inductive io_exn :=
| PyExn (e : exn)
| EOFError.

Inductive io_result (A : Type) :=
| Done (a : A)
| Failed (e : io_exn).
Arguments Done {A} a.
Arguments Failed {A} e.

Definition IO (A : Type) : Type := world -> io_result A * world.

#[export] Instance IO_ret : MRet IO := fun A a w => (Done a, w).
#[export] Instance IO_bind : MBind IO := fun A B f m w =>
  match m w with
  | (Done a, w') => f a w'
  | (Failed e, w') => (Failed e, w')
  end.

(** Code that works on the store only, run at the console. *)
Definition lift {A} (m : M A) : IO A := fun w =>
  match m (w_heap w) with
  | (Ok a, h) => (Done a, {| w_heap := h; w_stdin := w_stdin w; w_stdout := w_stdout w |})
  | (Raise e, h) =>
      (Failed (PyExn e), {| w_heap := h; w_stdin := w_stdin w; w_stdout := w_stdout w |})
  end.

(** [input(prompt)]: writes the prompt, then reads one line; [EOFError]
    when there is none left. *)
Definition input (prompt : string) : IO string := fun w =>
  match w_stdin w with
  | line :: rest =>
      (Done line,
       {| w_heap := w_heap w; w_stdin := rest; w_stdout := w_stdout w ++ [prompt] |})
  | [] =>
      (Failed EOFError,
       {| w_heap := w_heap w; w_stdin := []; w_stdout := w_stdout w ++ [prompt] |})
  end.

(** [print(s)] *)
Definition print (s : string) : IO unit := fun w =>
  (Done tt,
   {| w_heap := w_heap w; w_stdin := w_stdin w;
      w_stdout := w_stdout w ++ [s +:+ String newline EmptyString] |}).

Fixpoint foldIO {A B} (body : A -> B -> IO A) (acc : A) (l : list B) : IO A :=
  match l with
  | [] => mret acc
  | x :: l' => acc' ← body acc x; foldIO body acc' l'
  end.

(** The body of the loop of [manual_test_case_input]. *)
Definition manual_input_step (B : Builtins) (user_data : loc) (_ : unit)
    (item : string * RuleSpec) : IO unit :=
  let '(field, spec) := item in
  t ← lift (spec_type spec);
  value ← input ("Enter value for " +:+ field +:+ " (" +:+ t +:+ "): ");
  t ← lift (spec_type spec);
  value ←
    (if String.eqb t "integer" then
       match py_int B value with
       | Some n => mret (VInt n)
       | None =>
           print ("Invalid integer for " +:+ field +:+ ", using 0.");;
           mret (VInt 0)
       end
     else
       t ← lift (spec_type spec);
       if String.eqb t "boolean" then
         mret (VBool (existsb (String.eqb (py_lower B value)) ["true"; "1"; "yes"]))
       else mret (VStr value));
  lift (dict_setitem user_data field value).

Definition manual_test_case_input (B : Builtins) (schema : Schema) : IO loc :=
  user_data ← lift dict_new;
  foldIO (manual_input_step B user_data) tt (items schema);;
  mret user_data.

(** The value [manual_test_case_input] stores for an answer, by declared
    type. *)
Definition coerce (B : Builtins) (t : string) (answer : string) : pyval :=
  if String.eqb t "integer" then VInt (default 0 (py_int B answer))
  else if String.eqb t "boolean" then
    VBool (existsb (String.eqb (py_lower B answer)) ["true"; "1"; "yes"])
  else VStr answer.

(** The dict the loop turns [d] into, from the answers; [None] when a
    field has no type or the answers run out. *)
Fixpoint manual_fill (B : Builtins) (p : list (string * RuleSpec))
    (answers : list string) (d : gmap string pyval) : option (gmap string pyval) :=
  match p with
  | [] => Some d
  | (field, spec) :: p' =>
      match type spec, answers with
      | Some t, a :: answers' => manual_fill B p' answers' (<[field := coerce B t a]> d)
      | _, _ => None
      end
  end.

(** [schema] without its type declarations and its required list. *)
Definition untyped (schema : Schema) : Schema :=
  {| properties := Some (map (fun item : string * RuleSpec => (item.1, without_type item.2))
                             (items schema));
     required := None |}.

(** Stand-ins for the built-ins, to run examples: [int] on decimal digits
    only and [lower] on the letters A to Z only. *)
Fixpoint parse_digits (s : string) (acc : Z) : option Z :=
  match s with
  | EmptyString => Some acc
  | String c s' =>
      let n := nat_of_ascii c in
      if ((48 <=? n) && (n <=? 57))%nat
      then parse_digits s' (10 * acc + Z.of_nat (n - 48))
      else None
  end.

Fixpoint lower_letters (s : string) : string :=
  match s with
  | EmptyString => EmptyString
  | String c s' =>
      let n := nat_of_ascii c in
      String (if ((65 <=? n) && (n <=? 90))%nat then ascii_of_nat (n + 32) else c)
             (lower_letters s')
  end.

Definition simple_builtins : Builtins :=
  {| py_int := fun s => match s with EmptyString => None | _ => parse_digits s 0 end;
     py_lower := lower_letters |}.

Definition console (lines : list string) : world :=
  {| w_heap := []; w_stdin := lines; w_stdout := [] |}.

(** * Properties *)

(** ** The matcher computes the matching relation *)

Section ReCorrect.

Variable s : list ascii.

Lemma matches_bounds r i j :
  matches s r i j -> (i <= j)%nat /\ ((i <= length s)%nat -> (j <= length s)%nat).
Proof.
  induction 1 as [ | c i Hc | c i Hc _ | | | | r1 r2 i j k _ [] _ []
                 | | | | r i j k _ [] _ []];
    try (split; lia).
  - apply lookup_lt_Some in Hc. split; lia.
  - apply lookup_lt_Some in Hc. split; lia.
Qed.

Lemma star_ends_sound r step :
  (forall i j, In j (step i) -> matches s r i j) ->
  forall fuel i k, In k (Re.star_ends step fuel i) -> matches s (Star r) i k.
Proof.
  intros Hstep fuel.
  induction fuel as [ | fuel IH]; intros i k [<- | Hk]; try apply m_star_nil.
  - destruct Hk.
  - apply in_flat_map in Hk as (j & Hj & Hk).
    destruct (i <? j)%nat; [ | destruct Hk].
    apply m_star_cons with j; auto.
Qed.

Lemma star_ends_mono step fuel fuel' i k :
  (fuel <= fuel')%nat ->
  In k (Re.star_ends step fuel i) -> In k (Re.star_ends step fuel' i).
Proof.
  revert fuel' i.
  induction fuel as [ | fuel IH]; intros fuel' i Hle [<- | Hk].
  - destruct fuel'; left; reflexivity.
  - destruct Hk.
  - destruct fuel'; left; reflexivity.
  - destruct fuel' as [ | fuel']; [lia | ].
    right. apply in_flat_map in Hk as (j & Hj & Hk).
    apply in_flat_map. exists j. split; [assumption | ].
    destruct (i <? j)%nat; [ | destruct Hk].
    apply IH; [lia | assumption].
Qed.

Lemma ends_sound r : forall i j, In j (Re.ends r s i) -> matches s r i j.
Proof.
  induction r as [ | c | | | | r1 IH1 r2 IH2 | r1 IH1 r2 IH2 | r IH];
    intros i j Hj; simpl in Hj.
  - destruct Hj as [<- | []]. constructor.
  - destruct (s !! i) as [d | ] eqn:Hd; [ | destruct Hj].
    destruct (Ascii.eqb_spec c d) as [-> | ]; [ | destruct Hj].
    destruct Hj as [<- | []]. constructor; assumption.
  - destruct (s !! i) as [d | ] eqn:Hd; [ | destruct Hj].
    destruct (Ascii.eqb_spec d newline) as [ | Hne]; [destruct Hj | ].
    destruct Hj as [<- | []]. econstructor; eassumption.
  - destruct (Nat.eqb_spec i 0) as [-> | ]; [ | destruct Hj].
    destruct Hj as [<- | []]. constructor.
  - destruct (Nat.eqb_spec i (length s)) as [-> | ].
    + destruct Hj as [<- | []]. constructor.
    + destruct (s !! i) as [d | ] eqn:Hd; [ | destruct Hj].
      destruct (Ascii.eqb_spec d newline) as [-> | ]; [ | destruct Hj].
      destruct (Nat.eqb_spec (length s) (S i)); simpl in Hj; [ | destruct Hj].
      destruct Hj as [<- | []]. apply m_eol_nl; congruence.
  - apply in_flat_map in Hj as (k & Hk & Hj).
    apply m_cat with k; auto.
  - apply in_app_iff in Hj as [Hj | Hj].
    + apply m_alt_l; auto.
    + apply m_alt_r; auto.
  - eapply star_ends_sound; eauto.
Qed.

Lemma ends_complete r i j :
  matches s r i j -> (i <= length s)%nat -> In j (Re.ends r s i).
Proof.
  induction 1 as [ | c i Hc | c i Hc Hne | | | i Hi Hlen
                 | r1 r2 i j k H1 IH1 H2 IH2
                 | r1 r2 i j H1 IH1 | r1 r2 i j H2 IH2
                 | r i | r i j k H1 IH1 H2 IH2];
    intros Hle; simpl.
  - left; reflexivity.
  - rewrite Hc, Ascii.eqb_refl. left; reflexivity.
  - rewrite Hc. destruct (Ascii.eqb_spec c newline); [contradiction | ].
    left; reflexivity.
  - left; reflexivity.
  - rewrite Nat.eqb_refl. left; reflexivity.
  - destruct (Nat.eqb_spec i (length s)); [left; reflexivity | ].
    rewrite Hi, Ascii.eqb_refl.
    destruct (Nat.eqb_spec (length s) (S i)); [ | congruence].
    left; reflexivity.
  - apply in_flat_map. exists j. split; [auto | ].
    apply IH2. apply matches_bounds in H1. tauto.
  - apply in_app_iff. left; auto.
  - apply in_app_iff. right; auto.
  - destruct (length s - i)%nat; left; reflexivity.
  - pose proof (matches_bounds _ _ _ H1) as [Hij Hj].
    specialize (IH1 Hle). specialize (IH2 (Hj Hle)). simpl in IH2.
    destruct (Nat.eq_dec i j) as [-> | Hne]; [assumption | ].
    destruct (length s - i)%nat as [ | n] eqn:Hn; [lia | ].
    right. apply in_flat_map. exists j. split; [assumption | ].
    destruct (Nat.ltb_spec i j); [ | lia].
    eapply star_ends_mono; [ | eassumption]. lia.
Qed.

End ReCorrect.

(** [re.match] succeeds exactly when the pattern matches from position 0. *)
Lemma match_spec r s :
  Re.match_ r s = true <-> exists j, matches (list_ascii_of_string s) r 0%nat j.
Proof.
  unfold Re.match_. split.
  - destruct (Re.ends r (list_ascii_of_string s) 0) as [ | j l] eqn:He; [discriminate | ].
    intros _. exists j. apply ends_sound. rewrite He. left; reflexivity.
  - intros [j Hj]. apply ends_complete in Hj; [ | lia].
    destruct (Re.ends r (list_ascii_of_string s) 0); [destruct Hj | reflexivity].
  Qed.

(** [re.search] succeeds exactly when the pattern matches from some
    position of the string. *)
Lemma search_spec r s :
  Re.search r s = true <->
  exists i j, (i <= String.length s)%nat /\ matches (list_ascii_of_string s) r i j.
Proof.
  unfold Re.search. rewrite existsb_exists.
  assert (Hlen : length (list_ascii_of_string s) = String.length s).
  { induction s as [ | c s IH]; simpl; congruence. }
  rewrite Hlen. split.
  - intros (i & Hi & He). apply in_seq in Hi.
    destruct (Re.ends r (list_ascii_of_string s) i) as [ | j l] eqn:Hj; [discriminate | ].
    exists i, j. split; [lia | ]. apply ends_sound. rewrite Hj. left; reflexivity.
  - intros (i & j & Hi & Hm). exists i. split; [apply in_seq; lia | ].
    apply ends_complete in Hm; [ | lia].
    destruct (Re.ends r (list_ascii_of_string s) i); [destruct Hm | reflexivity].
Qed.

(** ** The field evaluator *)

Lemma append_if_app c msg errors :
  append_if c msg errors = errors ++ append_if c msg [].
Proof. destruct c; simpl; [reflexivity | symmetry; apply app_nil_r]. Qed.

Lemma append_if_length c msg : (length (append_if c msg []) <= 1)%nat.
Proof. destruct c; simpl; lia. Qed.

(** [validate_field] runs the seven checks one after the other. *)
Lemma validate_field_checks field value spec :
  validate_field field value spec =
  check_maximum field value spec
    (check_minimum field value spec
      (check_enum field value spec
        (check_pattern field value spec
          (check_max_length field value spec
            (check_min_length field value spec
              (check_type field value spec [])))))).
Proof. reflexivity. Qed.

(** On the spec that holds one rule, the other six checks do nothing. *)
Lemma validate_field_only field value spec k :
  validate_field field value (only k spec) = check k field value spec [].
Proof. destruct k; reflexivity. Qed.

(** A check appends to the list it is given, and at most one message. *)
Lemma check_app k field value spec errors :
  check k field value spec errors = errors ++ check k field value spec [].
Proof.
  pose proof (app_nil_r errors) as Hnil.
  destruct k; simpl;
    [ unfold check_type; destruct (type spec) as [t | ]; [ | auto];
      destruct (String.eqb t "string"); [apply append_if_app | ];
      destruct (String.eqb t "integer"); [apply append_if_app | ];
      destruct (String.eqb t "boolean"); [apply append_if_app | auto]
    | unfold check_min_length; destruct (min_length spec); [ | auto];
      destruct (Py.isinstance_str value); [apply append_if_app | auto]
    | unfold check_max_length; destruct (max_length spec); [ | auto];
      destruct (Py.isinstance_str value); [apply append_if_app | auto]
    | unfold check_pattern; destruct (pattern spec); [ | auto];
      destruct (Py.isinstance_str value); [apply append_if_app | auto]
    | unfold check_enum; destruct (enum spec); [apply append_if_app | auto]
    | unfold check_minimum; destruct (minimum spec); [ | auto];
      destruct (Py.isinstance_int value); [apply append_if_app | auto]
    | unfold check_maximum; destruct (maximum spec); [ | auto];
      destruct (Py.isinstance_int value); [apply append_if_app | auto] ].
Qed.

Lemma check_length k field value spec :
  (length (check k field value spec []) <= 1)%nat.
Proof.
  destruct k; simpl;
    [ unfold check_type; destruct (type spec) as [t | ]; [ | simpl; lia];
      destruct (String.eqb t "string"); [apply append_if_length | ];
      destruct (String.eqb t "integer"); [apply append_if_length | ];
      destruct (String.eqb t "boolean"); [apply append_if_length | simpl; lia]
    | unfold check_min_length; destruct (min_length spec); [ | simpl; lia];
      destruct (Py.isinstance_str value); [apply append_if_length | simpl; lia]
    | unfold check_max_length; destruct (max_length spec); [ | simpl; lia];
      destruct (Py.isinstance_str value); [apply append_if_length | simpl; lia]
    | unfold check_pattern; destruct (pattern spec); [ | simpl; lia];
      destruct (Py.isinstance_str value); [apply append_if_length | simpl; lia]
    | unfold check_enum; destruct (enum spec); [apply append_if_length | simpl; lia]
    | unfold check_minimum; destruct (minimum spec); [ | simpl; lia];
      destruct (Py.isinstance_int value); [apply append_if_length | simpl; lia]
    | unfold check_maximum; destruct (maximum spec); [ | simpl; lia];
      destruct (Py.isinstance_int value); [apply append_if_length | simpl; lia] ].
Qed.

(** The messages of a spec are those of its rules taken one at a time, in
    the order of [rule_order]. *)
Lemma validate_field_rules field value spec :
  validate_field field value spec =
  concat (map (fun k => validate_field field value (only k spec)) rule_order).
Proof.
  rewrite validate_field_checks.
  rewrite (check_app RMaximum), (check_app RMinimum), (check_app REnum),
    (check_app RPattern), (check_app RMaxLength), (check_app RMinLength).
  unfold rule_order. cbn [map concat]. rewrite !validate_field_only. cbn [check].
  rewrite app_nil_r, <- !app_assoc. reflexivity.
Qed.

Lemma check_violates k field value spec :
  Py.isinstance_bool value = false ->
  check k field value spec [] =
  if violates k value spec then option_list (message k field spec) else [].
Proof.
  intros Hb. destruct k; simpl.
  - unfold check_type. destruct (type spec) as [t | ]; [ | reflexivity].
    destruct (String.eqb t "string"); [destruct value; reflexivity | ].
    destruct (String.eqb t "integer");
      [destruct value; try reflexivity; discriminate Hb | ].
    destruct (String.eqb t "boolean"); [destruct value; reflexivity | reflexivity].
  - unfold check_min_length. destruct (min_length spec) as [n | ]; [ | reflexivity].
    destruct value as [s | | | ]; reflexivity.
  - unfold check_max_length. destruct (max_length spec) as [n | ]; [ | reflexivity].
    destruct value as [s | | | ]; try reflexivity;
      simpl; rewrite Z.gtb_ltb; reflexivity.
  - unfold check_pattern. destruct (pattern spec) as [r | ]; [ | reflexivity].
    destruct value as [s | | | ]; try reflexivity;
      simpl; destruct (Re.match_ r s); reflexivity.
  - unfold check_enum. destruct (enum spec) as [l | ]; [ | reflexivity].
    destruct (Py.contains l value); reflexivity.
  - unfold check_minimum. destruct (minimum spec) as [n | ]; [ | reflexivity].
    destruct value as [ | m | | ]; try reflexivity; discriminate Hb.
  - unfold check_maximum. destruct (maximum spec) as [n | ]; [ | reflexivity].
    destruct value as [ | m | | ]; try reflexivity; try discriminate Hb;
      simpl; rewrite Z.gtb_ltb; reflexivity.
Qed.

(** A violated rule has a message. *)
Lemma violates_message k field value spec :
  violates k value spec = true -> exists m, message k field spec = Some m.
Proof.
  destruct k; simpl.
  - destruct (type spec) as [t | ]; [ | discriminate].
    destruct (String.eqb t "string"); [eauto | ].
    destruct (String.eqb t "integer"); [eauto | ].
    destruct (String.eqb t "boolean"); [eauto | discriminate].
  - destruct (min_length spec); [eauto | discriminate].
  - destruct (max_length spec); [eauto | discriminate].
  - destruct (pattern spec); [eauto | discriminate].
  - destruct (enum spec); [eauto | discriminate].
  - destruct (minimum spec); [eauto | discriminate].
  - destruct (maximum spec); [eauto | discriminate].
Qed.

Lemma length_concat_filter {A B} (g : A -> list B) (p : A -> bool) (l : list A) :
  (forall k, length (g k) = if p k then 1%nat else 0%nat) ->
  length (concat (map g l)) = length (List.filter p l).
Proof.
  intros Hg. induction l as [ | k l IH]; [reflexivity | ].
  simpl. rewrite length_app, IH, Hg. destruct (p k); reflexivity.
Qed.

(** C6. For a value that is not a boolean, [validate_field] returns the
    message of every rule the value violates and nothing else, in the
    order type, min_length, max_length, pattern, enum, minimum, maximum:
    N violated rules give exactly N messages. For a boolean the count
    fails: [True] violates the rule [type: integer] and gets no message. *)
Theorem violated_rules_reported :
  (forall field value spec,
     Py.isinstance_bool value = false ->
     validate_field field value spec =
       concat (map (fun k => if violates k value spec
                             then option_list (message k field spec) else [])
                   rule_order)
     /\ length (validate_field field value spec) =
        length (List.filter (fun k => violates k value spec) rule_order))
  /\ (forall field,
        List.filter (fun k => violates k (VBool true) (type_spec "integer")) rule_order
        = [RType]
        /\ message RType field (type_spec "integer")
           = Some (field +:+ " should be an integer.")
        /\ validate_field field (VBool true) (type_spec "integer") = []).
Proof.
  split; [ | intros field; repeat split].
  intros field value spec Hb.
  assert (Heq : validate_field field value spec =
                concat (map (fun k => if violates k value spec
                                      then option_list (message k field spec) else [])
                            rule_order)).
  { rewrite validate_field_rules. f_equal. apply map_ext. intros k.
    rewrite validate_field_only. apply check_violates. assumption. }
  split; [exact Heq | ].
  rewrite Heq. apply length_concat_filter. intros k.
  destruct (violates k value spec) eqn:Hv; [ | reflexivity].
  destruct (violates_message k field value spec Hv) as [m ->]. reflexivity.
Qed.

Lemma violated_rules_reported_witness :
  validate_field "age" (VInt 200)
    {| type := Some "integer"; min_length := None; max_length := None;
       pattern := None; enum := Some [VInt 1; VInt 2]; minimum := Some 0;
       maximum := Some 120 |}
  = ["age must be one of [1, 2]."; "age must be at most 120."]
  /\ length (validate_field "age" (VStr "x") (type_spec "integer")) = 1%nat.
Proof.
  destruct violated_rules_reported as [Hall _]. split.
  - destruct (Hall "age" (VInt 200)
                {| type := Some "integer"; min_length := None; max_length := None;
                   pattern := None; enum := Some [VInt 1; VInt 2]; minimum := Some 0;
                   maximum := Some 120 |} eq_refl) as [-> _].
    reflexivity.
  - destruct (Hall "age" (VStr "x") (type_spec "integer") eq_refl) as [_ ->].
    reflexivity.
Defined.

(** A number against a spec of type string with an enum and an empty
    range: four rules violated, four messages, in the order of the rules. *)
Example four_violations :
  validate_field "flag" (VInt 7)
    {| type := Some "string"; min_length := Some 3; max_length := None;
       pattern := Some (Chr "a"); enum := Some [VStr "on"; VStr "off"];
       minimum := Some 9; maximum := Some 5 |}
  = [ "flag should be a string."; "flag must be one of ['on', 'off'].";
      "flag must be at least 9."; "flag must be at most 5." ].
Proof. reflexivity. Qed.

(** The length and pattern checks are skipped for a value that is not a
    string. *)
Lemma string_checks_guarded field value spec :
  Py.isinstance_str value = false ->
  validate_field field value (only RMinLength spec) = []
  /\ validate_field field value (only RMaxLength spec) = []
  /\ validate_field field value (only RPattern spec) = [].
Proof.
  intros Hv. rewrite !validate_field_only. simpl.
  unfold check_min_length, check_max_length, check_pattern. rewrite Hv.
  destruct (min_length spec), (max_length spec), (pattern spec); auto.
Qed.

(** The range checks are skipped for a value that [isinstance(value, int)]
    rejects: a string or [None]. *)
Lemma range_checks_guarded field value spec :
  Py.isinstance_int value = false ->
  validate_field field value (only RMinimum spec) = []
  /\ validate_field field value (only RMaximum spec) = [].
Proof.
  intros Hv. rewrite !validate_field_only. simpl.
  unfold check_minimum, check_maximum. rewrite Hv.
  destruct (minimum spec), (maximum spec); auto.
Qed.

(** C1. A boolean checked against [type: integer] gets no message at all:
    [isinstance(value, int)] holds of [True] and [False]. *)
Theorem bool_accepted_as_integer field b :
  validate_field field (VBool b) (type_spec "integer") = []
  /\ ~ In (field +:+ " should be an integer.")
          (validate_field field (VBool b) (type_spec "integer")).
Proof. split; [reflexivity | intros []]. Qed.

(** C3. The minimum and maximum checks are run on booleans, [True]
    counting as 1 and [False] as 0, and report them when out of range. *)
Theorem bool_reaches_range_checks field :
  validate_field field (VBool true) (range_spec (Some 5) None)
    = [field +:+ " must be at least 5."]
  /\ validate_field field (VBool false) (range_spec None (Some (-1)))
    = [field +:+ " must be at most -1."].
Proof. split; reflexivity. Qed.

(** C8. A type tag other than string, integer and boolean gives no type
    message, and the field is validated as if its spec had no type. *)
Theorem unknown_type_passthrough field value spec t :
  type spec = Some t ->
  t <> "string" -> t <> "integer" -> t <> "boolean" ->
  validate_field field value (only RType spec) = []
  /\ validate_field field value spec = validate_field field value (without_type spec).
Proof.
  intros Ht H1 H2 H3.
  assert (Hc : forall errors, check_type field value spec errors = errors).
  { intros errors. unfold check_type. rewrite Ht.
    apply String.eqb_neq in H1, H2, H3. rewrite H1, H2, H3. reflexivity. }
  split.
  - rewrite validate_field_only. apply Hc.
  - rewrite !validate_field_checks, Hc. reflexivity.
Qed.

Lemma unknown_type_passthrough_witness :
  validate_field "born" (VInt 7) (only RType (type_spec "date")) = []
  /\ validate_field "born" (VInt 7) (type_spec "date")
     = validate_field "born" (VInt 7) (without_type (type_spec "date")).
Proof.
  apply (unknown_type_passthrough "born" (VInt 7) (type_spec "date") "date");
    [reflexivity | discriminate | discriminate | discriminate].
Defined.

(** C7. For a string value the pattern check passes exactly when the
    pattern matches from position 0; when it does not, the violation is
    reported whatever the pattern matches further on in the string. *)
Theorem pattern_anchored_at_start field s spec r :
  pattern spec = Some r ->
  ((exists j, matches (list_ascii_of_string s) r 0%nat j) ->
     validate_field field (VStr s) (only RPattern spec) = [])
  /\ ((~ exists j, matches (list_ascii_of_string s) r 0%nat j) ->
     validate_field field (VStr s) (only RPattern spec)
     = [field +:+ " does not match required pattern."]).
Proof.
  intros Hr. rewrite validate_field_only. simpl. unfold check_pattern.
  rewrite Hr. simpl. rewrite <- match_spec.
  destruct (Re.match_ r s); split; intros H; try reflexivity; try discriminate.
  destruct H. reflexivity.
Qed.

(** [^A] against [xA], and [A] against [xA], which [re.search] would find
    at position 1. *)
Lemma pattern_anchored_at_start_witness :
  validate_field "code" (VStr "xA") (only RPattern (pattern_spec (Cat Bol (Chr "A"))))
    = ["code does not match required pattern."]
  /\ Re.search (Chr "A") "xA" = true
  /\ validate_field "code" (VStr "xA") (only RPattern (pattern_spec (Chr "A")))
    = ["code does not match required pattern."].
Proof.
  split; [ | split; [reflexivity | ] ].
  - apply (pattern_anchored_at_start "code" "xA" (pattern_spec (Cat Bol (Chr "A")))
             (Cat Bol (Chr "A")) eq_refl).
    rewrite <- match_spec. discriminate.
  - apply (pattern_anchored_at_start "code" "xA" (pattern_spec (Chr "A"))
             (Chr "A") eq_refl).
    rewrite <- match_spec. discriminate.
Defined.

(** ** The record validator *)

Lemma deref_app_new (h : heap) (d : gmap string pyval) : deref (h ++ [d]) (length h) = d.
Proof.
  unfold deref. rewrite lookup_app_r by lia.
  replace (length h - length h)%nat with 0%nat by lia. reflexivity.
Qed.

Lemma is_required_spec schema field :
  is_required schema field = true <-> In field (default [] (required schema)).
Proof.
  unfold is_required.
  destruct (default [] (required schema)) as [ | x l] eqn:Hreq; [split; [discriminate | intros []] | ].
  rewrite existsb_exists. split.
  - intros (y & Hy & He). apply String.eqb_eq in He. subst y. assumption.
  - intros Hin. exists field. split; [assumption | apply String.eqb_refl].
Qed.

(** One turn of the loop reads the record, leaves the store as it is and
    appends the messages of the field. *)
Lemma validate_data_step_run schema l errors item h :
  validate_data_step schema l errors item h =
  (Ok (errors ++ field_errors schema (deref h l) item), h).
Proof.
  destruct item as [field spec].
  unfold validate_data_step, field_errors, mbind, M_bind, dict_contains, dict_getitem, mret, M_ret.
  simpl. destruct (deref h l !! field) as [v | ] eqn:Hv.
  - rewrite bool_decide_eq_true_2 by eauto. simpl. rewrite Hv. reflexivity.
  - rewrite bool_decide_eq_false_2 by (intros [v Hv']; discriminate). simpl.
    destruct (is_required schema field); [reflexivity | ].
    rewrite app_nil_r. reflexivity.
Qed.

Lemma validate_data_loop_run schema l p : forall errors h,
  foldM (validate_data_step schema l) errors p h =
  (Ok (errors ++ concat (map (field_errors schema (deref h l)) p)), h).
Proof.
  induction p as [ | item p IH]; intros errors h; simpl.
  - rewrite app_nil_r. reflexivity.
  - unfold mbind, M_bind. rewrite validate_data_step_run, IH, <- app_assoc. reflexivity.
Qed.

(** [validate_data] always returns, with the messages of the declared
    fields in declaration order, and leaves the store as it found it. *)
Lemma validate_data_run schema l h :
  validate_data schema l h =
  (Ok (concat (map (field_errors schema (deref h l)) (items schema))), h).
Proof. unfold validate_data. rewrite validate_data_loop_run. reflexivity. Qed.

(** C4. The example scenario: a schema with a required [name] of at least
    2 characters and an [age] between 0 and 120, on a valid record, on a
    record without name and with age 200, and on a record with a short name
    and a negative age. *)
Theorem example_scenario (h : heap) :
  let r1 : gmap string pyval := {[ "name" := VStr "Al"; "age" := VInt 30 ]} in
  let r2 : gmap string pyval := {[ "age" := VInt 200 ]} in
  let r3 : gmap string pyval := {[ "name" := VStr "A"; "age" := VInt (-1) ]} in
  validate_data example_schema (length h) (h ++ [r1]) = (Ok [], h ++ [r1])
  /\ validate_data example_schema (length h) (h ++ [r2])
     = (Ok ["name is required."; "age must be at most 120."], h ++ [r2])
  /\ validate_data example_schema (length h) (h ++ [r3])
     = (Ok ["name should be at least 2 characters."; "age must be at least 0."], h ++ [r3]).
Proof.
  intros r1 r2 r3. rewrite !validate_data_run, !deref_app_new.
  repeat split; f_equal; f_equal; vm_compute; reflexivity.
Qed.

(** C5. A declared field that the record lacks contributes the message
    [field is required.] and nothing else when it is in the required list,
    and nothing at all when it is not: the output is the output for the
    fields declared before it, then that message if any, then the output
    for the fields declared after it. *)
Theorem missing_field schema l h p1 field spec p2 :
  items schema = p1 ++ (field, spec) :: p2 ->
  deref h l !! field = None ->
  exists e1 e2,
    validate_data (with_properties schema p1) l h = (Ok e1, h)
    /\ validate_data (with_properties schema p2) l h = (Ok e2, h)
    /\ (In field (default [] (required schema)) ->
        validate_data schema l h = (Ok (e1 ++ [field +:+ " is required."] ++ e2), h))
    /\ (~ In field (default [] (required schema)) ->
        validate_data schema l h = (Ok (e1 ++ e2), h)).
Proof.
  intros Hp Hf.
  exists (concat (map (field_errors schema (deref h l)) p1)),
         (concat (map (field_errors schema (deref h l)) p2)).
  assert (Hfe : field_errors schema (deref h l) (field, spec) =
                if is_required schema field then [field +:+ " is required."] else []).
  { unfold field_errors. simpl. rewrite Hf. reflexivity. }
  rewrite !validate_data_run, Hp, map_app, concat_app. simpl. rewrite Hfe.
  repeat split.
  - intros Hin. apply is_required_spec in Hin. rewrite Hin. reflexivity.
  - intros Hin. destruct (is_required schema field) eqn:Hr; [ | reflexivity].
    apply is_required_spec in Hr. contradiction.
Qed.

Lemma missing_field_witness :
  validate_data example_schema 0%nat [ {[ "age" := VInt 200 ]} ]
    = (Ok ([] ++ ["name is required."] ++ ["age must be at most 120."]),
       [ {[ "age" := VInt 200 ]} ]).
Proof.
  assert (Hn : deref [ {[ "age" := VInt 200 ]} ] 0%nat !! "name" = None)
    by (vm_compute; reflexivity).
  destruct (missing_field example_schema 0%nat [ {[ "age" := VInt 200 ]} ] []
              "name" _ _ eq_refl Hn) as (e1 & e2 & H1 & H2 & Hreq & _).
  rewrite (Hreq (or_introl eq_refl)).
  rewrite validate_data_run in H1, H2.
  injection H1 as <-. injection H2 as <-. vm_compute. reflexivity.
Defined.

(** ** The case generator *)

Lemma foldM_nil {A B} (body : A -> B -> M A) acc (h : heap) :
  foldM body acc [] h = (Ok acc, h).
Proof. reflexivity. Qed.

Lemma foldM_cons {A B} (body : A -> B -> M A) acc x l (h : heap) :
  foldM body acc (x :: l) h =
  match body acc x h with
  | (Ok acc', h') => foldM body acc' l h'
  | (Raise e, h') => (Raise e, h')
  end.
Proof. reflexivity. Qed.

Lemma valid_case_step_run b u field spec (h : heap) :
  valid_case_step b u (field, spec) h =
  match baseline_value spec with
  | Ok v => (Ok tt, <[b := <[field := v]> (deref h b)]> h)
  | Raise e => (Raise e, h)
  end.
Proof.
  unfold valid_case_step, baseline_value, spec_type.
  destruct (type spec) as [t | ]; [ | reflexivity].
  unfold mbind, M_bind, mret, M_ret.
  destruct (String.eqb t "string").
  - destruct (enum spec) as [[ | x l] | ]; try reflexivity.
    destruct (min_length spec); reflexivity.
  - destruct (String.eqb t "integer"); [reflexivity | ].
    destruct (String.eqb t "boolean"); reflexivity.
Qed.

Lemma deref_lookup (h : heap) l : (l < length h)%nat -> h !! l = Some (deref h l).
Proof.
  intros Hl. unfold deref. destruct (h !! l) eqn:Hd; [reflexivity | ].
  apply lookup_ge_None in Hd. lia.
Qed.

Lemma deref_insert (h : heap) l d : (l < length h)%nat -> deref (<[l := d]> h) l = d.
Proof. intros Hl. unfold deref. rewrite list_lookup_insert_eq by assumption. reflexivity. Qed.

Lemma valid_case_loop_run b p : forall u (h : heap),
  (b < length h)%nat ->
  match baseline_record p (deref h b) with
  | Ok d => foldM (valid_case_step b) u p h = (Ok tt, <[b := d]> h)
  | Raise e => exists h', foldM (valid_case_step b) u p h = (Raise e, h')
  end.
Proof.
  induction p as [ | [field spec] p IH]; intros u h Hb; cbn [baseline_record].
  - destruct u. rewrite foldM_nil.
    rewrite list_insert_id by (apply deref_lookup; assumption). reflexivity.
  - rewrite foldM_cons, valid_case_step_run.
    destruct (baseline_value spec) as [v | e]; [ | eauto].
    specialize (IH tt (<[b := <[field := v]> (deref h b)]> h)).
    rewrite length_insert, deref_insert in IH by assumption.
    specialize (IH Hb).
    destruct (baseline_record p (<[field := v]> (deref h b))) as [d | e]; [ | assumption].
    rewrite IH, list_insert_insert_eq. reflexivity.
Qed.

Lemma build_valid_case_run schema (h0 : heap) :
  match baseline_record (items schema) ∅ with
  | Ok base => build_valid_case schema h0 = (Ok (length h0), h0 ++ [base])
  | Raise e => exists h', build_valid_case schema h0 = (Raise e, h')
  end.
Proof.
  unfold build_valid_case, mbind, M_bind, dict_new.
  assert (Hb : (length h0 < length (h0 ++ [(∅ : gmap string pyval)]))%nat)
    by (rewrite length_app; simpl; lia).
  pose proof (valid_case_loop_run (length h0) (items schema) tt _ Hb) as Hloop.
  rewrite deref_app_new in Hloop.
  destruct (baseline_record (items schema) ∅) as [base | e].
  - rewrite Hloop. unfold mret, M_ret. f_equal.
    replace (length h0) with (length h0 + 0)%nat at 1 by lia.
    rewrite insert_app_r. reflexivity.
  - destruct Hloop as [h' ->]. eauto.
Qed.

Lemma add_invalid_run b field label v cases (h : heap) :
  add_invalid b field label v cases h =
  (Ok (cases ++ [(label, length h)]), h ++ [<[field := v]> (deref h b)]).
Proof.
  unfold add_invalid, mbind, M_bind, dict_copy, dict_setitem, mret, M_ret.
  f_equal. rewrite deref_app_new.
  replace (length h) with (length h + 0)%nat at 1 by lia.
  rewrite insert_app_r. reflexivity.
Qed.

Lemma alloc_cases_app n vs ws :
  alloc_cases n (vs ++ ws) = alloc_cases n vs ++ alloc_cases (n + length vs) ws.
Proof.
  revert n. induction vs as [ | x vs IH]; intros n; simpl.
  - rewrite Nat.add_0_r. reflexivity.
  - rewrite IH. replace (S n + length vs)%nat with (n + S (length vs))%nat by lia.
    reflexivity.
Qed.

Lemma deref_app_l (h h' : heap) l : (l < length h)%nat -> deref (h ++ h') l = deref h l.
Proof. intros Hl. unfold deref. rewrite lookup_app_l by assumption. reflexivity. Qed.

Lemma invalid_cases_step_run b cases field spec t (h : heap) :
  type spec = Some t ->
  (b < length h)%nat ->
  invalid_cases_step b cases (field, spec) h =
  (Ok (cases ++ alloc_cases (length h) (variants field spec)),
   h ++ map (variant_record (deref h b)) (variants field spec)).
Proof.
  intros Ht Hb.
  unfold invalid_cases_step, variants, spec_type, variant_record. rewrite Ht.
  unfold mbind, M_bind, mret, M_ret.
  destruct (String.eqb t "string"), (String.eqb t "integer");
    destruct (min_length spec), (pattern spec), (minimum spec), (maximum spec), (enum spec);
    repeat (rewrite add_invalid_run; cbn beta iota);
    rewrite ?length_app, ?deref_app_l by (rewrite ?length_app; lia);
    cbn [app map alloc_cases variant_record v_field v_label v_value length];
    rewrite <- ?app_assoc, ?app_nil_r; cbn [app];
    replace (length h + 1)%nat with (S (length h)) by lia;
    try replace (S (length h) + 1)%nat with (S (S (length h))) by lia;
    try replace (S (S (length h)) + 1)%nat with (S (S (S (length h)))) by lia;
    try replace (S (S (S (length h))) + 1)%nat with (S (S (S (S (length h))))) by lia;
    reflexivity.
Qed.

Lemma invalid_cases_loop_run b p : forall cases (h : heap),
  Forall (fun item : string * RuleSpec => type item.2 <> None) p ->
  (b < length h)%nat ->
  foldM (invalid_cases_step b) cases p h =
  (Ok (cases ++ alloc_cases (length h) (all_variants p)),
   h ++ map (variant_record (deref h b)) (all_variants p)).
Proof.
  induction p as [ | [field spec] p IH]; intros cases h Hty Hb.
  - rewrite foldM_nil. unfold all_variants. simpl. rewrite !app_nil_r. reflexivity.
  - rewrite foldM_cons.
    apply Forall_cons in Hty as [Ht Hty]. simpl in Ht.
    destruct (type spec) as [t | ] eqn:Hspec; [clear Ht | contradiction].
    rewrite (invalid_cases_step_run b cases field spec t h Hspec Hb).
    rewrite IH by (rewrite ?length_app; auto with lia).
    rewrite deref_app_l by assumption.
    change (all_variants ((field, spec) :: p))
      with (variants field spec ++ all_variants p).
    rewrite alloc_cases_app, map_app, length_app, length_map, <- !app_assoc.
    reflexivity.
Qed.

Lemma baseline_record_types p : forall d base,
  baseline_record p d = Ok base ->
  Forall (fun item : string * RuleSpec => type item.2 <> None) p.
Proof.
  induction p as [ | [field spec] p IH]; intros d base Hrec; [constructor | ].
  simpl in Hrec. destruct (baseline_value spec) as [v | e] eqn:Hv; [ | discriminate].
  constructor; [ | eauto].
  simpl. intros Hnone. unfold baseline_value in Hv. rewrite Hnone in Hv. discriminate.
Qed.

(** What [generate_test_cases] returns and the store it leaves: the valid
    case at the first free location, then one new dict for each variant. *)
Lemma generate_test_cases_run schema (h0 : heap) :
  match baseline_record (items schema) ∅ with
  | Ok base =>
      generate_test_cases schema h0 =
      (Ok (("Valid case", length h0)
           :: alloc_cases (S (length h0)) (all_variants (items schema))),
       h0 ++ base :: map (variant_record base) (all_variants (items schema)))
  | Raise e => exists h', generate_test_cases schema h0 = (Raise e, h')
  end.
Proof.
  pose proof (build_valid_case_run schema h0) as Hvalid.
  unfold generate_test_cases, mbind, M_bind.
  destruct (baseline_record (items schema) ∅) as [base | e] eqn:Hrec.
  - rewrite Hvalid. unfold build_invalid_cases.
    rewrite invalid_cases_loop_run
      by (rewrite ?length_app; simpl; eauto using baseline_record_types with lia).
    rewrite deref_app_new, length_app. simpl.
    replace (length h0 + 1)%nat with (S (length h0)) by lia.
    rewrite <- app_assoc. reflexivity.
  - destruct Hvalid as [h' ->]. eauto.
Qed.

Lemma variants_field field spec x : In x (variants field spec) -> v_field x = field.
Proof.
  unfold variants. destruct (type spec) as [t | ]; [ | intros []].
  destruct (String.eqb t "string"), (String.eqb t "integer");
    destruct (min_length spec), (pattern spec), (minimum spec), (maximum spec), (enum spec);
    simpl; intros H;
    repeat match goal with
           | H : _ \/ _ |- _ => destruct H as [H | H]
           | H : False |- _ => destruct H
           end;
    subst x; reflexivity.
Qed.

Lemma all_variants_field p x :
  In x (all_variants p) -> In (v_field x) (map fst p).
Proof.
  unfold all_variants. intros Hx. apply in_concat in Hx as (vs & Hvs & Hx).
  apply in_map_iff in Hvs as ([field spec] & <- & Hitem).
  apply variants_field in Hx. simpl in Hx. rewrite Hx.
  apply in_map_iff. exists (field, spec). auto.
Qed.

(** The dicts of the variants sit where [alloc_cases] says. *)
Lemma alloc_cases_deref base vs : forall n (pre : heap),
  length pre = n ->
  Forall (fun c : string * loc =>
            (n <= c.2)%nat /\
            exists x, In x vs /\
                      deref (pre ++ map (variant_record base) vs) c.2 = variant_record base x)
         (alloc_cases n vs).
Proof.
  induction vs as [ | x vs IH]; intros n pre Hn; simpl; constructor.
  - simpl. split; [lia | ]. exists x. split; [auto | ].
    subst n. unfold deref. rewrite lookup_app_r by lia.
    replace (length pre - length pre)%nat with 0%nat by lia. reflexivity.
  - specialize (IH (S n) (pre ++ [variant_record base x])).
    rewrite length_app in IH. simpl in IH. specialize (IH ltac:(lia)).
    rewrite <- app_assoc in IH. simpl in IH.
    eapply Forall_impl; [exact IH | ].
    intros c (Hc & y & Hy & Hd). split; [lia | ]. exists y. auto.
Qed.

(** C9. When [generate_test_cases] returns, its first case is the valid
    case, the dict the first loop built; building the variants has left
    that dict and the dicts of the caller as they were; every variant is
    another dict, equal to the valid case on every field but one declared
    field; and [validate_data] leaves the store as it found it. *)
Theorem variants_copy_valid_case schema (h0 h1 : heap) cases :
  generate_test_cases schema h0 = (Ok cases, h1) ->
  exists base rest,
    cases = ("Valid case", length h0) :: rest
    /\ build_valid_case schema h0 = (Ok (length h0), h0 ++ [base])
    /\ deref h1 (length h0) = base
    /\ (forall l, (l < length h0)%nat -> h1 !! l = h0 !! l)
    /\ Forall (fun c : string * loc =>
                 c.2 <> length h0 /\
                 exists field,
                   In field (map fst (items schema)) /\
                   forall g, g <> field ->
                             deref h1 c.2 !! g = deref h1 (length h0) !! g)
              rest
    /\ (forall schema' l (h : heap), (validate_data schema' l h).2 = h).
Proof.
  intros Hgen.
  pose proof (generate_test_cases_run schema h0) as Hrun.
  pose proof (build_valid_case_run schema h0) as Hvalid.
  destruct (baseline_record (items schema) ∅) as [base | e];
    [ | destruct Hrun as [h' Hrun]; congruence].
  rewrite Hrun in Hgen. injection Hgen as <- <-.
  assert (Hbase : deref (h0 ++ base :: map (variant_record base) (all_variants (items schema)))
                        (length h0) = base).
  { unfold deref. rewrite lookup_app_r by lia.
    replace (length h0 - length h0)%nat with 0%nat by lia. reflexivity. }
  exists base, (alloc_cases (S (length h0)) (all_variants (items schema))).
  repeat split; try assumption.
  - intros l Hl. apply lookup_app_l. assumption.
  - rewrite Hbase.
    pose proof (alloc_cases_deref base (all_variants (items schema))
                  (S (length h0)) (h0 ++ [base])) as Hall.
    rewrite length_app in Hall. simpl in Hall. specialize (Hall ltac:(lia)).
    rewrite <- app_assoc in Hall. simpl in Hall.
    eapply Forall_impl; [exact Hall | ].
    intros c (Hc & x & Hx & Hd). split; [lia | ].
    exists (v_field x). split; [apply all_variants_field; assumption | ].
    intros g Hg. rewrite Hd. unfold variant_record.
    apply lookup_insert_ne. congruence.
  - intros schema' l h. rewrite validate_data_run. reflexivity.
Qed.

Lemma variants_copy_valid_case_witness :
  exists base rest,
    [("Valid case", 0%nat); ("name: too short", 1%nat);
     ("age: below minimum", 2%nat); ("age: above maximum", 3%nat)]
    = ("Valid case", 0%nat) :: rest
    /\ build_valid_case example_schema [] = (Ok 0%nat, [] ++ [base])
    /\ deref [ {[ "name" := VStr "xx"; "age" := VInt 0 ]};
               {[ "name" := VStr ""; "age" := VInt 0 ]};
               {[ "name" := VStr "xx"; "age" := VInt (-1) ]};
               {[ "name" := VStr "xx"; "age" := VInt 121 ]} ] 0%nat = base
    /\ rest <> [].
Proof.
  assert (Hgen : generate_test_cases example_schema [] =
                 (Ok [("Valid case", 0%nat); ("name: too short", 1%nat);
                      ("age: below minimum", 2%nat); ("age: above maximum", 3%nat)],
                  [ {[ "name" := VStr "xx"; "age" := VInt 0 ]};
                    {[ "name" := VStr ""; "age" := VInt 0 ]};
                    {[ "name" := VStr "xx"; "age" := VInt (-1) ]};
                    {[ "name" := VStr "xx"; "age" := VInt 121 ]} ]))
    by (vm_compute; reflexivity).
  destruct (variants_copy_valid_case example_schema [] _ _ Hgen)
    as (base & rest & Hcases & Hbuild & Hbase & _).
  exists base, rest. repeat split; try assumption.
  injection Hcases as <-. discriminate.
Defined.

(** *** Where the generator fails *)







(** *** The valid case under validation *)

Lemma baseline_record_other field p : forall d base,
  baseline_record p d = Ok base ->
  ~ In field (map fst p) ->
  base !! field = d !! field.
Proof.
  induction p as [ | [f s] p IH]; intros d base Hrec Hnot; simpl in *.
  - injection Hrec as <-. reflexivity.
  - destruct (baseline_value s) as [v | e]; [ | discriminate].
    rewrite (IH _ _ Hrec) by tauto.
    apply lookup_insert_ne. tauto.
Qed.

(** With distinct field names, the valid case holds for each declared
    field the value the first loop picked for it. *)
Lemma baseline_record_lookup field spec p : forall d base,
  NoDup (map fst p) ->
  baseline_record p d = Ok base ->
  In (field, spec) p ->
  exists v, baseline_value spec = Ok v /\ base !! field = Some v.
Proof.
  induction p as [ | [f s] p IH]; intros d base Hnd Hrec Hin; [destruct Hin | ].
  simpl in Hnd, Hrec. apply NoDup_cons in Hnd as [Hf Hnd].
  destruct (baseline_value s) as [v | e] eqn:Hv; [ | discriminate].
  destruct Hin as [[= -> ->] | Hin]; [ | eauto].
  exists v. split; [assumption | ].
  rewrite (baseline_record_other field p _ _ Hrec).
  - apply lookup_insert_eq.
  - rewrite <- list_elem_of_In. exact Hf.
Qed.

Lemma str_repeat_length n : String.length (Py.str_repeat "x" n) = n.
Proof.
  induction n as [ | n IH]; [reflexivity | ].
  change (S (String.length (Py.str_repeat "x" n)) = S n). congruence.
Qed.

Lemma contains_head s l : Py.contains (VStr s :: l) (VStr s) = true.
Proof. unfold Py.contains. simpl. rewrite String.eqb_refl. reflexivity. Qed.

(** The value picked for a field of [baseline_safe] passes validation. *)
Lemma baseline_value_safe field spec v :
  baseline_value spec = Ok v ->
  baseline_safe spec = true ->
  validate_field field v spec = [].
Proof.
  unfold baseline_value, baseline_safe, enum_admits, absent.
  rewrite validate_field_checks.
  unfold check_maximum, check_minimum, check_enum, check_pattern, check_max_length,
    check_min_length, check_type.
  destruct (pattern spec); [discriminate | ].
  destruct (type spec) as [t | ]; [ | discriminate].
  destruct (String.eqb t "string"); [ |
    destruct (String.eqb t "integer"); [ |
      destruct (String.eqb t "boolean") ] ].
  - destruct (max_length spec); [discriminate | ].
    destruct (maximum spec); [discriminate | ].
    destruct (enum spec) as [[ | [s | | | ] l] | ]; try discriminate.
    + intros [= <-]. rewrite contains_head. simpl.
      destruct (min_length spec) as [n | ], (minimum spec); simpl; intros Hn;
        try reflexivity;
        apply Z.leb_le in Hn; apply Z.ltb_ge in Hn; rewrite Hn; reflexivity.
    + destruct (min_length spec) as [n | ]; intros [= <-] _; simpl;
        destruct (minimum spec); try reflexivity;
        (replace (Py.len (Py.str_mul "x" n) <? n) with false; [reflexivity | ];
         symmetry; apply Z.ltb_ge; unfold Py.len, Py.str_mul;
         rewrite str_repeat_length; lia).
  - destruct (max_length spec); [discriminate | ].
    destruct (maximum spec); [discriminate | ].
    intros [= <-]. simpl.
    destruct (min_length spec), (enum spec), (minimum spec); simpl; intros Hn;
      rewrite ?Hn, ?Z.ltb_irrefl; reflexivity.
  - intros [= <-]. simpl.
    destruct (min_length spec), (max_length spec), (enum spec),
      (minimum spec), (maximum spec); simpl; intros Hn;
      rewrite ?andb_false_r in Hn; try discriminate Hn;
      rewrite ?andb_true_r in Hn; rewrite ?Hn; reflexivity.
  - destruct (max_length spec); [discriminate | ].
    destruct (maximum spec); [discriminate | ].
    intros [= <-]. simpl.
    destruct (min_length spec), (enum spec), (minimum spec); simpl; intros Hn;
      rewrite ?Hn; reflexivity.
Qed.

(** C2. Generator self-consistency, for the fields of [baseline_safe]: on a
    schema with distinct field names on which [generate_test_cases]
    returns, validating the first case with the same schema yields no
    message for such a field: the schema reduced to that field gives the
    empty list, and the whole output is the output for the fields declared
    before it followed by the output for the fields declared after it. *)
Theorem baseline_clean schema (h0 h1 : heap) cases p1 field spec p2 :
  NoDup (map fst (items schema)) ->
  generate_test_cases schema h0 = (Ok cases, h1) ->
  items schema = p1 ++ (field, spec) :: p2 ->
  baseline_safe spec = true ->
  exists valid_case rest e1 e2,
    cases = ("Valid case", valid_case) :: rest
    /\ validate_data (with_properties schema [(field, spec)]) valid_case h1 = (Ok [], h1)
    /\ validate_data (with_properties schema p1) valid_case h1 = (Ok e1, h1)
    /\ validate_data (with_properties schema p2) valid_case h1 = (Ok e2, h1)
    /\ validate_data schema valid_case h1 = (Ok (e1 ++ e2), h1).
Proof.
  intros Hnd Hgen Hitems Hsafe.
  pose proof (generate_test_cases_run schema h0) as Hrun.
  destruct (baseline_record (items schema) ∅) as [base | e] eqn:Hrec;
    [ | destruct Hrun as [h' Hrun]; congruence].
  rewrite Hrun in Hgen. injection Hgen as <- <-.
  set (h1 := h0 ++ base :: map (variant_record base) (all_variants (items schema))).
  assert (Hbase : deref h1 (length h0) = base).
  { unfold h1, deref. rewrite lookup_app_r by lia.
    replace (length h0 - length h0)%nat with 0%nat by lia. reflexivity. }
  destruct (baseline_record_lookup field spec (items schema) ∅ base Hnd Hrec)
    as (v & Hv & Hlook).
  { rewrite Hitems. apply in_elt. }
  assert (Hfe : field_errors schema base (field, spec) = []).
  { unfold field_errors. simpl. rewrite Hlook.
    apply baseline_value_safe; assumption. }
  exists (length h0), (alloc_cases (S (length h0)) (all_variants (items schema))),
    (concat (map (field_errors schema base) p1)),
    (concat (map (field_errors schema base) p2)).
  rewrite !validate_data_run, Hbase, Hitems, map_app, concat_app.
  repeat split.
  - change (items (with_properties schema [(field, spec)])) with [(field, spec)].
    simpl. change (field_errors (with_properties schema [(field, spec)]))
      with (field_errors schema).
    rewrite Hfe. reflexivity.
  - simpl. rewrite Hfe. reflexivity.
Qed.

Lemma baseline_clean_witness :
  exists valid_case rest e1 e2,
    [("Valid case", 0%nat); ("name: too short", 1%nat);
     ("age: below minimum", 2%nat); ("age: above maximum", 3%nat)]
    = ("Valid case", valid_case) :: rest
    /\ e1 ++ e2 = []
    /\ validate_data example_schema valid_case
         [ {[ "name" := VStr "xx"; "age" := VInt 0 ]};
           {[ "name" := VStr ""; "age" := VInt 0 ]};
           {[ "name" := VStr "xx"; "age" := VInt (-1) ]};
           {[ "name" := VStr "xx"; "age" := VInt 121 ]} ]
       = (Ok (e1 ++ e2),
          [ {[ "name" := VStr "xx"; "age" := VInt 0 ]};
            {[ "name" := VStr ""; "age" := VInt 0 ]};
            {[ "name" := VStr "xx"; "age" := VInt (-1) ]};
            {[ "name" := VStr "xx"; "age" := VInt 121 ]} ]).
Proof.
  assert (Hnd : NoDup (map fst (items example_schema))).
  { simpl. repeat constructor; rewrite list_elem_of_In; simpl; intuition discriminate. }
  assert (Hgen : generate_test_cases example_schema [] =
                 (Ok [("Valid case", 0%nat); ("name: too short", 1%nat);
                      ("age: below minimum", 2%nat); ("age: above maximum", 3%nat)],
                  [ {[ "name" := VStr "xx"; "age" := VInt 0 ]};
                    {[ "name" := VStr ""; "age" := VInt 0 ]};
                    {[ "name" := VStr "xx"; "age" := VInt (-1) ]};
                    {[ "name" := VStr "xx"; "age" := VInt 121 ]} ]))
    by (vm_compute; reflexivity).
  destruct (baseline_clean example_schema [] _ _ [] "name" _ _ Hnd Hgen eq_refl eq_refl)
    as (valid_case & rest & e1 & e2 & Hcases & _ & H1 & H2 & Hall).
  exists valid_case, rest, e1, e2. repeat split; try assumption.
  injection Hcases as <- _.
  rewrite validate_data_run in H1, H2.
  injection H1 as <-. injection H2 as <-. vm_compute. reflexivity.
Defined.

(** The baseline is not clean for every field the specification names. A
    string field with an enum and a min_length gets the first enum
    element, which may be too short; an integer field with an enum gets
    its minimum or 0, a boolean field [True] and a field of another type
    [None], which the enum may not hold. The four specs have rules among
    min_length, enum and minimum only. *)
Lemma baseline_not_clean :
  (Forall (fun item : string * RuleSpec => promised_clean item.2 = true)
          (items enum_min_length_schema)
   /\ let r := generate_test_cases enum_min_length_schema [] in
      r.1 = Ok [("Valid case", 0%nat); ("tag: too short", 1%nat); ("tag: not in enum", 2%nat)]
      /\ (validate_data enum_min_length_schema 0%nat r.2).1
         = Ok ["tag should be at least 2 characters."])
  /\ (Forall (fun item : string * RuleSpec => promised_clean item.2 = true)
             (items integer_enum_schema)
      /\ let r := generate_test_cases integer_enum_schema [] in
         r.1 = Ok [("Valid case", 0%nat); ("level: not in enum", 1%nat)]
         /\ (validate_data integer_enum_schema 0%nat r.2).1
            = Ok ["level must be one of [1, 2, 3]."])
  /\ (Forall (fun item : string * RuleSpec => promised_clean item.2 = true)
             (items boolean_enum_schema)
      /\ let r := generate_test_cases boolean_enum_schema [] in
         r.1 = Ok [("Valid case", 0%nat); ("flag: not in enum", 1%nat)]
         /\ (validate_data boolean_enum_schema 0%nat r.2).1
            = Ok ["flag must be one of [False]."])
  /\ (Forall (fun item : string * RuleSpec => promised_clean item.2 = true)
             (items date_enum_schema)
      /\ let r := generate_test_cases date_enum_schema [] in
         r.1 = Ok [("Valid case", 0%nat); ("born: not in enum", 1%nat)]
         /\ (validate_data date_enum_schema 0%nat r.2).1
            = Ok ["born must be one of ['today']."]).
Proof.
  repeat split; try (repeat constructor); vm_compute; reflexivity.
Qed.

(** * Further properties *)

(** ** The record validator and the schema *)

Lemma field_errors_agree schema (d d' : gmap string pyval) item :
  d !! item.1 = d' !! item.1 -> field_errors schema d item = field_errors schema d' item.
Proof. unfold field_errors. intros ->. reflexivity. Qed.

(** X1. Fields of the record that the schema does not declare are ignored:
    two records that agree on the declared fields get the same messages. *)
Theorem undeclared_fields_ignored schema l l' (h h' : heap) :
  (forall field, In field (map fst (items schema)) ->
                 deref h l !! field = deref h' l' !! field) ->
  (validate_data schema l h).1 = (validate_data schema l' h').1.
Proof.
  intros Hagree. rewrite !validate_data_run. simpl. f_equal. f_equal.
  apply map_ext_in. intros item Hitem. apply field_errors_agree, Hagree.
  apply in_map. assumption.
Qed.

Lemma undeclared_fields_ignored_witness :
  (validate_data example_schema 0%nat
     [ {[ "name" := VStr "A"; "age" := VInt 30; "nick" := VInt 1 ]} ]).1
  = (validate_data example_schema 0%nat [ {[ "name" := VStr "A"; "age" := VInt 30 ]} ]).1.
Proof.
  apply undeclared_fields_ignored. simpl.
  intros field [<- | [<- | []]]; vm_compute; reflexivity.
Defined.

(** X2. The required list counts only through the declared fields it
    names: replacing it by a list that holds the same declared fields
    (one with more undeclared names, say) changes nothing. *)
Theorem required_counts_on_declared_fields schema req l (h : heap) :
  (forall field, In field (map fst (items schema)) ->
                 (In field (default [] (required schema)) <-> In field (default [] req))) ->
  validate_data (with_required schema req) l h = validate_data schema l h.
Proof.
  intros Hreq. rewrite !validate_data_run. f_equal. f_equal. f_equal.
  change (items (with_required schema req)) with (items schema).
  apply map_ext_in. intros [field spec] Hitem. unfold field_errors. simpl.
  destruct (deref h l !! field); [reflexivity | ].
  assert (Hb : is_required (with_required schema req) field = is_required schema field).
  { apply eq_true_iff_eq. rewrite !is_required_spec. symmetry. apply Hreq.
    apply (in_map fst) in Hitem. exact Hitem. }
  rewrite Hb. reflexivity.
Qed.

Lemma required_counts_on_declared_fields_witness :
  validate_data (with_required example_schema (Some ["ghost"; "name"])) 0%nat
    [ {[ "age" := VInt 200 ]} ]
  = validate_data example_schema 0%nat [ {[ "age" := VInt 200 ]} ].
Proof.
  apply required_counts_on_declared_fields. simpl.
  intros field [<- | [<- | []]]; split; intros H;
    repeat (destruct H as [H | H]; try discriminate H); auto.
Defined.

(** X3. Validation follows the declaration order and is compositional in
    the schema: for properties [p1 ++ p2] the output is the output for
    [p1] followed by the output for [p2]. *)
Theorem validate_data_concat schema p1 p2 l (h : heap) :
  exists e1 e2,
    validate_data (with_properties schema p1) l h = (Ok e1, h)
    /\ validate_data (with_properties schema p2) l h = (Ok e2, h)
    /\ validate_data (with_properties schema (p1 ++ p2)) l h = (Ok (e1 ++ e2), h).
Proof.
  exists (concat (map (field_errors schema (deref h l)) p1)),
         (concat (map (field_errors schema (deref h l)) p2)).
  rewrite !validate_data_run.
  change (items (with_properties schema p1)) with p1.
  change (items (with_properties schema p2)) with p2.
  change (items (with_properties schema (p1 ++ p2))) with (p1 ++ p2).
  rewrite map_app, concat_app. auto.
Qed.

(** ** The field evaluator *)

(** X4. [validate_field] returns at most five messages, since the length
    and pattern rules apply to strings only and the range rules to numbers
    only; a string can get five. *)
Theorem validate_field_at_most_five :
  (forall field value spec, (length (validate_field field value spec) <= 5)%nat)
  /\ length (validate_field "pin" (VStr "abc") five_rules_spec) = 5%nat.
Proof.
  split; [ | reflexivity].
  intros field value spec. rewrite validate_field_rules.
  unfold rule_order. cbn [map concat]. rewrite !length_app.
  pose proof (fun k => check_length k field value spec) as Hone.
  pose proof (Hone RType) as H1. pose proof (Hone RMinLength) as H2.
  pose proof (Hone RMaxLength) as H3. pose proof (Hone RPattern) as H4.
  pose proof (Hone REnum) as H5. pose proof (Hone RMinimum) as H6.
  pose proof (Hone RMaximum) as H7.
  rewrite <- !validate_field_only in H1, H2, H3, H4, H5, H6, H7.
  destruct (Py.isinstance_str value) eqn:Hs.
  - assert (Hi : Py.isinstance_int value = false) by (destruct value; discriminate || reflexivity).
    destruct (range_checks_guarded field value spec Hi) as [-> ->].
    cbn [length]. lia.
  - destruct (string_checks_guarded field value spec Hs) as (-> & -> & ->).
    cbn [length]. lia.
Qed.

Lemma append_if_nil c msg : append_if c msg [] = [] <-> c = false.
Proof. destruct c; simpl; split; congruence. Qed.

Lemma validate_field_nil field value spec :
  validate_field field value spec = [] <->
  forall k, check k field value spec [] = [].
Proof.
  rewrite validate_field_rules. unfold rule_order. cbn [map concat].
  rewrite !validate_field_only, app_nil_r. rewrite !app_nil. split.
  - intros (H1 & H2 & H3 & H4 & H5 & H6 & H7) k. destruct k; assumption.
  - intros H. repeat split; apply H.
Qed.

Lemma contains_spec l v :
  Py.contains l v = true <-> exists w, In w l /\ Py.eqb v w = true.
Proof. unfold Py.contains. apply existsb_exists. Qed.

(** X5. [validate_field] returns no message exactly when the value
    conforms to the spec, rule by rule; the field name plays no part. *)
Theorem validate_field_accepts field value spec :
  validate_field field value spec = [] <-> conforms value spec.
Proof.
  rewrite validate_field_nil. unfold conforms. split.
  - intros H.
    pose proof (H RType) as H1. pose proof (H RMinLength) as H2.
    pose proof (H RMaxLength) as H3. pose proof (H RPattern) as H4.
    pose proof (H REnum) as H5. pose proof (H RMinimum) as H6.
    pose proof (H RMaximum) as H7. clear H. simpl in *.
    unfold check_type, check_min_length, check_max_length, check_pattern, check_enum,
      check_minimum, check_maximum in *.
    repeat split.
    + intros Ht. rewrite Ht in H1. simpl in H1.
      apply append_if_nil, negb_false_iff in H1. exact H1.
    + intros Ht. rewrite Ht in H1. simpl in H1.
      apply append_if_nil, negb_false_iff in H1. exact H1.
    + intros Ht. rewrite Ht in H1. simpl in H1.
      apply append_if_nil, negb_false_iff in H1. exact H1.
    + intros n s Hn ->. rewrite Hn in H2. simpl in H2.
      apply append_if_nil, Z.ltb_ge in H2. exact H2.
    + intros n s Hn ->. rewrite Hn in H3. simpl in H3.
      apply append_if_nil in H3. rewrite Z.gtb_ltb in H3. apply Z.ltb_ge in H3. exact H3.
    + intros r s Hr ->. rewrite Hr in H4. simpl in H4.
      apply append_if_nil, negb_false_iff, match_spec in H4. exact H4.
    + intros l Hl. rewrite Hl in H5.
      apply append_if_nil, negb_false_iff, contains_spec in H5. exact H5.
    + intros n Hn Hi. rewrite Hn, Hi in H6.
      apply append_if_nil, Z.ltb_ge in H6. exact H6.
    + intros n Hn Hi. rewrite Hn, Hi in H7.
      apply append_if_nil in H7. rewrite Z.gtb_ltb in H7. apply Z.ltb_ge in H7. exact H7.
  - intros (T1 & T2 & T3 & H2 & H3 & H4 & H5 & H6 & H7) k.
    destruct k; simpl.
    + unfold check_type. destruct (type spec) as [t | ]; [ | reflexivity].
      destruct (String.eqb_spec t "string") as [-> | _];
        [rewrite T1 by reflexivity; reflexivity | ].
      destruct (String.eqb_spec t "integer") as [-> | _];
        [rewrite T2 by reflexivity; reflexivity | ].
      destruct (String.eqb_spec t "boolean") as [-> | _];
        [rewrite T3 by reflexivity; reflexivity | reflexivity].
    + unfold check_min_length. destruct (min_length spec) as [n | ]; [ | reflexivity].
      destruct value as [s | | | ]; try reflexivity. simpl.
      apply append_if_nil, Z.ltb_ge. eauto.
    + unfold check_max_length. destruct (max_length spec) as [n | ]; [ | reflexivity].
      destruct value as [s | | | ]; try reflexivity. simpl.
      apply append_if_nil. rewrite Z.gtb_ltb. apply Z.ltb_ge. eauto.
    + unfold check_pattern. destruct (pattern spec) as [r | ]; [ | reflexivity].
      destruct value as [s | | | ]; try reflexivity. simpl.
      apply append_if_nil, negb_false_iff, match_spec. eauto.
    + unfold check_enum. destruct (enum spec) as [l | ]; [ | reflexivity].
      apply append_if_nil, negb_false_iff, contains_spec. eauto.
    + unfold check_minimum. destruct (minimum spec) as [n | ]; [ | reflexivity].
      destruct (Py.isinstance_int value) eqn:Hi; [ | reflexivity].
      apply append_if_nil, Z.ltb_ge. eauto.
    + unfold check_maximum. destruct (maximum spec) as [n | ]; [ | reflexivity].
      destruct (Py.isinstance_int value) eqn:Hi; [ | reflexivity].
      apply append_if_nil. rewrite Z.gtb_ltb. apply Z.ltb_ge. eauto.
Qed.

Lemma append_if_In c msg m : In m (append_if c msg []) -> m = msg.
Proof. destruct c; simpl; intuition. Qed.

(** Every message of [validate_field] is the message of one of the rules
    of the spec, for the field. *)
Lemma validate_field_message field value spec m :
  In m (validate_field field value spec) -> exists k, message k field spec = Some m.
Proof.
  rewrite validate_field_rules. intros Hm.
  apply in_concat in Hm as (c & Hc & Hm).
  apply in_map_iff in Hc as (k & <- & _).
  rewrite validate_field_only in Hm. exists k.
  destruct k; simpl in Hm |- *;
    [ unfold check_type in Hm; destruct (type spec) as [t | ]; [ | destruct Hm];
      destruct (String.eqb t "string");
      [ | destruct (String.eqb t "integer");
          [ | destruct (String.eqb t "boolean"); [ | destruct Hm] ] ]
    | unfold check_min_length in Hm; destruct (min_length spec); [ | destruct Hm];
      destruct (Py.isinstance_str value); [ | destruct Hm]
    | unfold check_max_length in Hm; destruct (max_length spec); [ | destruct Hm];
      destruct (Py.isinstance_str value); [ | destruct Hm]
    | unfold check_pattern in Hm; destruct (pattern spec); [ | destruct Hm];
      destruct (Py.isinstance_str value); [ | destruct Hm]
    | unfold check_enum in Hm; destruct (enum spec); [ | destruct Hm]
    | unfold check_minimum in Hm; destruct (minimum spec); [ | destruct Hm];
      destruct (Py.isinstance_int value); [ | destruct Hm]
    | unfold check_maximum in Hm; destruct (maximum spec); [ | destruct Hm];
      destruct (Py.isinstance_int value); [ | destruct Hm] ];
    apply append_if_In in Hm; rewrite Hm; reflexivity.
Qed.

(** X6. Every message of [validate_data] is about a declared field: it is
    the required message of a declared field that the record lacks and the
    required list names, or, for a declared field that the record holds, a
    message [validate_field] returns for its value, which is the message of
    one of the rules of the spec of that field. *)
Theorem messages_name_declared_fields schema l (h : heap) msgs m :
  validate_data schema l h = (Ok msgs, h) ->
  In m msgs ->
  exists field spec,
    In (field, spec) (items schema)
    /\ ((deref h l !! field = None
         /\ In field (default [] (required schema))
         /\ m = field +:+ " is required.")
        \/ (exists v k,
              deref h l !! field = Some v
              /\ In m (validate_field field v spec)
              /\ message k field spec = Some m)).
Proof.
  rewrite validate_data_run. intros [= <-] Hm.
  apply in_concat in Hm as (c & Hc & Hm).
  apply in_map_iff in Hc as ([field spec] & <- & Hitem).
  exists field, spec. split; [assumption | ].
  unfold field_errors in Hm. simpl in Hm.
  destruct (deref h l !! field) as [v | ].
  - right. destruct (validate_field_message field v spec m Hm) as [k Hk]. eauto.
  - left. destruct (is_required schema field) eqn:Hreq; [ | destruct Hm].
    destruct Hm as [<- | []]. apply is_required_spec in Hreq. auto.
Qed.

Lemma messages_name_declared_fields_witness :
  exists field spec,
    In (field, spec) (items example_schema)
    /\ ((deref [ {[ "age" := VInt 200 ]} ] 0%nat !! field = None
         /\ In field (default [] (required example_schema))
         /\ "age must be at most 120." = field +:+ " is required.")
        \/ (exists v k,
              deref [ {[ "age" := VInt 200 ]} ] 0%nat !! field = Some v
              /\ In "age must be at most 120." (validate_field field v spec)
              /\ message k field spec = Some "age must be at most 120.")).
Proof.
  apply (messages_name_declared_fields example_schema 0%nat [ {[ "age" := VInt 200 ]} ]
           ["name is required."; "age must be at most 120."]).
  - vm_compute. reflexivity.
  - right. left. reflexivity.
Defined.

(** ** The case generator *)




Lemma alloc_cases_locs vs : forall n, map snd (alloc_cases n vs) = seq n (length vs).
Proof.
  induction vs as [ | x vs IH]; intros n; simpl; [reflexivity | ].
  rewrite IH. reflexivity.
Qed.

Lemma variants_length field spec : (length (variants field spec) <= 3)%nat.
Proof.
  unfold variants. destruct (type spec) as [t | ]; [ | simpl; lia].
  destruct (String.eqb_spec t "string") as [-> | _].
  - simpl. destruct (min_length spec), (pattern spec), (enum spec); simpl; lia.
  - destruct (String.eqb t "integer");
      destruct (minimum spec), (maximum spec), (enum spec); simpl; lia.
Qed.

Lemma all_variants_length p : (length (all_variants p) <= 3 * length p)%nat.
Proof.
  induction p as [ | [field spec] p IH]; [simpl; lia | ].
  change (all_variants ((field, spec) :: p)) with (variants field spec ++ all_variants p).
  rewrite length_app. pose proof (variants_length field spec). simpl length. lia.
Qed.

(** X8. Every case has a dict of its own: the locations of the cases are
    pairwise distinct and new, the store grows by one dict for each case,
    and there are at least one and at most [1 + 3 * fields] cases. *)
Theorem cases_own_their_dicts schema (h0 h1 : heap) cases :
  generate_test_cases schema h0 = (Ok cases, h1) ->
  NoDup (map snd cases)
  /\ Forall (fun c : string * loc => (length h0 <= c.2 < length h1)%nat) cases
  /\ length h1 = (length h0 + length cases)%nat
  /\ (1 <= length cases <= 1 + 3 * length (items schema))%nat.
Proof.
  intros Hgen. pose proof (generate_test_cases_run schema h0) as Hrun.
  destruct (baseline_record (items schema) ∅) as [base | e];
    [ | destruct Hrun as [h' Hrun]; congruence].
  rewrite Hrun in Hgen. injection Hgen as <- <-.
  set (vs := all_variants (items schema)).
  assert (Hlocs : map snd (("Valid case", length h0) :: alloc_cases (S (length h0)) vs)
                  = seq (length h0) (S (length vs))).
  { simpl. rewrite alloc_cases_locs. reflexivity. }
  assert (Hlen : length (("Valid case", length h0) :: alloc_cases (S (length h0)) vs)
                 = S (length vs)).
  { rewrite <- (length_map snd), Hlocs, length_seq. reflexivity. }
  assert (Hh1 : length (h0 ++ base :: map (variant_record base) vs)
                = (length h0 + S (length vs))%nat).
  { rewrite length_app. simpl. rewrite length_map. reflexivity. }
  repeat split.
  - rewrite Hlocs. apply NoDup_ListNoDup, seq_NoDup.
  - apply Forall_forall. intros c Hc. rewrite Hh1.
    apply list_elem_of_In, (in_map snd) in Hc. rewrite Hlocs in Hc.
    apply in_seq in Hc. lia.
  - rewrite Hh1, Hlen. reflexivity.
  - rewrite Hlen. lia.
  - rewrite Hlen. pose proof (all_variants_length (items schema)). fold vs in H. lia.
Qed.

Lemma cases_own_their_dicts_witness :
  NoDup [0%nat; 1%nat; 2%nat; 3%nat]
  /\ (1 <= 4 <= 1 + 3 * 2)%nat.
Proof.
  assert (Hgen : generate_test_cases example_schema [] =
                 (Ok [("Valid case", 0%nat); ("name: too short", 1%nat);
                      ("age: below minimum", 2%nat); ("age: above maximum", 3%nat)],
                  [ {[ "name" := VStr "xx"; "age" := VInt 0 ]};
                    {[ "name" := VStr ""; "age" := VInt 0 ]};
                    {[ "name" := VStr "xx"; "age" := VInt (-1) ]};
                    {[ "name" := VStr "xx"; "age" := VInt 121 ]} ]))
    by (vm_compute; reflexivity).
  destruct (cases_own_their_dicts example_schema [] _ _ Hgen) as (Hnd & _ & _ & Hlen).
  split; [exact Hnd | exact Hlen].
Defined.

Lemma baseline_record_keys p : forall d base,
  baseline_record p d = Ok base ->
  forall field, is_Some (base !! field) <-> In field (map fst p) \/ is_Some (d !! field).
Proof.
  induction p as [ | [f s] p IH]; intros d base Hrec field; simpl in *.
  - injection Hrec as <-. tauto.
  - destruct (baseline_value s) as [v | e]; [ | discriminate].
    rewrite (IH _ _ Hrec field), lookup_insert_is_Some.
    destruct (decide (f = field)); tauto.
Qed.

(** X9. Every record [generate_test_cases] returns, the valid case and the
    variants alike, defines the declared fields and no other. *)
Theorem cases_define_declared_fields schema (h0 h1 : heap) cases c field :
  generate_test_cases schema h0 = (Ok cases, h1) ->
  In c cases ->
  is_Some (deref h1 c.2 !! field) <-> In field (map fst (items schema)).
Proof.
  intros Hgen Hc. pose proof (generate_test_cases_run schema h0) as Hrun.
  destruct (baseline_record (items schema) ∅) as [base | e] eqn:Hrec;
    [ | destruct Hrun as [h' Hrun]; congruence].
  rewrite Hrun in Hgen. injection Hgen as <- <-.
  assert (Hbase : is_Some (base !! field) <-> In field (map fst (items schema))).
  { rewrite (baseline_record_keys _ _ _ Hrec field), lookup_empty.
    split; [intros [H | [v Hv]]; [assumption | discriminate] | auto]. }
  destruct Hc as [<- | Hc].
  - simpl. unfold deref. rewrite lookup_app_r by lia.
    replace (length h0 - length h0)%nat with 0%nat by lia. exact Hbase.
  - pose proof (alloc_cases_deref base (all_variants (items schema))
                  (S (length h0)) (h0 ++ [base])) as Hall.
    rewrite length_app in Hall. simpl in Hall. specialize (Hall ltac:(lia)).
    rewrite <- app_assoc in Hall. simpl in Hall.
    rewrite Forall_forall in Hall. apply list_elem_of_In, Hall in Hc.
    destruct Hc as (_ & x & Hx & ->). unfold variant_record.
    rewrite lookup_insert_is_Some, Hbase.
    apply all_variants_field in Hx.
    destruct (decide (v_field x = field)) as [<- | ]; tauto.
Qed.

Lemma cases_define_declared_fields_witness :
  is_Some (deref [ {[ "name" := VStr "xx"; "age" := VInt 0 ]};
                   {[ "name" := VStr ""; "age" := VInt 0 ]};
                   {[ "name" := VStr "xx"; "age" := VInt (-1) ]};
                   {[ "name" := VStr "xx"; "age" := VInt 121 ]} ] 2%nat !! "name")
  <-> In "name" (map fst (items example_schema)).
Proof.
  apply (cases_define_declared_fields example_schema []
           _ [("Valid case", 0%nat); ("name: too short", 1%nat);
              ("age: below minimum", 2%nat); ("age: above maximum", 3%nat)]
           ("age: below minimum", 2%nat)).
  - vm_compute. reflexivity.
  - right. right. left. reflexivity.
Defined.

(** The dict of each variant is in the store, under the label of the
    variant. *)
Lemma alloc_cases_In base x vs : forall n (pre : heap),
  length pre = n ->
  In x vs ->
  exists l, In (v_label x, l) (alloc_cases n vs)
            /\ deref (pre ++ map (variant_record base) vs) l = variant_record base x.
Proof.
  induction vs as [ | y vs IH]; intros n pre Hn Hx; [destruct Hx | ].
  destruct Hx as [-> | Hx]; simpl.
  - exists n. split; [auto | ]. subst n. unfold deref. rewrite lookup_app_r by lia.
    replace (length pre - length pre)%nat with 0%nat by lia. reflexivity.
  - destruct (IH (S n) (pre ++ [variant_record base y])) as (l & Hl & Hd);
      [rewrite length_app; simpl; lia | assumption | ].
    rewrite <- app_assoc in Hd. simpl in Hd. exists l. auto.
Qed.

Lemma generated_variant schema (h0 h1 : heap) cases field spec x :
  generate_test_cases schema h0 = (Ok cases, h1) ->
  In (field, spec) (items schema) ->
  In x (variants field spec) ->
  exists l base, In (v_label x, l) cases /\ deref h1 l = variant_record base x.
Proof.
  intros Hgen Hitem Hx. pose proof (generate_test_cases_run schema h0) as Hrun.
  destruct (baseline_record (items schema) ∅) as [base | e];
    [ | destruct Hrun as [h' Hrun]; congruence].
  rewrite Hrun in Hgen. injection Hgen as <- <-.
  assert (Hall : In x (all_variants (items schema))).
  { unfold all_variants. apply in_concat. exists (variants field spec).
    split; [ | assumption]. apply in_map_iff. exists (field, spec). auto. }
  destruct (alloc_cases_In base x (all_variants (items schema))
              (S (length h0)) (h0 ++ [base])) as (l & Hl & Hd);
    [rewrite length_app; simpl; lia | exact Hall | ].
  rewrite <- app_assoc in Hd. simpl in Hd.
  exists l, base. split; [right; assumption | assumption].
Qed.

Lemma check_In k field value spec m :
  In m (check k field value spec []) -> In m (validate_field field value spec).
Proof.
  intros Hm. rewrite validate_field_rules. apply in_concat.
  exists (validate_field field value (only k spec)). split.
  - apply in_map_iff. exists k. split; [reflexivity | ].
    unfold rule_order. destruct k; simpl; tauto.
  - rewrite validate_field_only. assumption.
Qed.

Lemma validate_data_In schema l (h : heap) field spec v m :
  In (field, spec) (items schema) ->
  deref h l !! field = Some v ->
  In m (validate_field field v spec) ->
  exists msgs, validate_data schema l h = (Ok msgs, h) /\ In m msgs.
Proof.
  intros Hitem Hv Hm. rewrite validate_data_run. eexists. split; [reflexivity | ].
  apply in_concat. exists (field_errors schema (deref h l) (field, spec)). split.
  - apply in_map_iff. eauto.
  - unfold field_errors. simpl. rewrite Hv. assumption.
Qed.

(** X10. The range variants are invalid: for an integer field with a
    minimum, the case labelled [below minimum] is in the list and
    validating it with the same schema reports the minimum rule; likewise
    for a maximum and the case labelled [above maximum]. *)
Theorem range_variants_rejected schema (h0 h1 : heap) cases field spec :
  generate_test_cases schema h0 = (Ok cases, h1) ->
  In (field, spec) (items schema) ->
  type spec = Some "integer" ->
  (forall n, minimum spec = Some n ->
     exists l msgs,
       In (field +:+ ": below minimum", l) cases
       /\ validate_data schema l h1 = (Ok msgs, h1)
       /\ In (field +:+ " must be at least " +:+ Py.str_of_Z n +:+ ".") msgs)
  /\ (forall n, maximum spec = Some n ->
     exists l msgs,
       In (field +:+ ": above maximum", l) cases
       /\ validate_data schema l h1 = (Ok msgs, h1)
       /\ In (field +:+ " must be at most " +:+ Py.str_of_Z n +:+ ".") msgs).
Proof.
  intros Hgen Hitem Ht. split; intros n Hn.
  - destruct (generated_variant schema h0 h1 cases field spec
                {| v_field := field; v_label := field +:+ ": below minimum";
                   v_value := VInt (n - 1) |} Hgen Hitem)
      as (l & base & Hl & Hd).
    { unfold variants. rewrite Ht, Hn. simpl. destruct (maximum spec); simpl; auto. }
    destruct (validate_data_In schema l h1 field spec (VInt (n - 1))
                (field +:+ " must be at least " +:+ Py.str_of_Z n +:+ ".") Hitem)
      as (msgs & Hv & Hm).
    { rewrite Hd. unfold variant_record. simpl. apply lookup_insert_eq. }
    { apply (check_In RMinimum). simpl. unfold check_minimum. rewrite Hn. simpl.
      replace (n - 1 <? n) with true by (symmetry; apply Z.ltb_lt; lia).
      left. reflexivity. }
    exists l, msgs. auto.
  - destruct (generated_variant schema h0 h1 cases field spec
                {| v_field := field; v_label := field +:+ ": above maximum";
                   v_value := VInt (n + 1) |} Hgen Hitem)
      as (l & base & Hl & Hd).
    { unfold variants. rewrite Ht, Hn. simpl.
      destruct (minimum spec); simpl; auto. }
    destruct (validate_data_In schema l h1 field spec (VInt (n + 1))
                (field +:+ " must be at most " +:+ Py.str_of_Z n +:+ ".") Hitem)
      as (msgs & Hv & Hm).
    { rewrite Hd. unfold variant_record. simpl. apply lookup_insert_eq. }
    { apply (check_In RMaximum). simpl. unfold check_maximum. rewrite Hn. simpl.
      replace (n + 1 >? n) with true by (symmetry; rewrite Z.gtb_ltb; apply Z.ltb_lt; lia).
      left. reflexivity. }
    exists l, msgs. auto.
Qed.

Lemma range_variants_rejected_witness :
  exists l msgs,
    In ("age: above maximum", l)
       [("Valid case", 0%nat); ("name: too short", 1%nat);
        ("age: below minimum", 2%nat); ("age: above maximum", 3%nat)]
    /\ In "age must be at most 120." msgs.
Proof.
  assert (Hgen : generate_test_cases example_schema [] =
                 (Ok [("Valid case", 0%nat); ("name: too short", 1%nat);
                      ("age: below minimum", 2%nat); ("age: above maximum", 3%nat)],
                  [ {[ "name" := VStr "xx"; "age" := VInt 0 ]};
                    {[ "name" := VStr ""; "age" := VInt 0 ]};
                    {[ "name" := VStr "xx"; "age" := VInt (-1) ]};
                    {[ "name" := VStr "xx"; "age" := VInt 121 ]} ]))
    by (vm_compute; reflexivity).
  destruct (range_variants_rejected example_schema [] _ _ "age" _ Hgen
              (or_intror (or_introl eq_refl)) eq_refl) as [_ Hmax].
  destruct (Hmax 120 eq_refl) as (l & msgs & Hl & _ & Hm).
  exists l, msgs. split; assumption.
Defined.

Lemma validate_data_single schema l (h : heap) field spec v :
  deref h l !! field = Some v ->
  validate_data (with_properties schema [(field, spec)]) l h
  = (Ok (validate_field field v spec), h).
Proof.
  intros Hv. rewrite validate_data_run.
  change (items (with_properties schema [(field, spec)])) with [(field, spec)].
  simpl. unfold field_errors. simpl. rewrite Hv, app_nil_r. reflexivity.
Qed.



(** X12. The case labelled [not in enum] holds the text [not-in-enum]; it
    breaks the enum rule exactly when the enum does not hold that text.
    It is derived for a field of any type. *)
Theorem enum_variant_conditionally_rejected schema (h0 h1 : heap) cases field spec e :
  generate_test_cases schema h0 = (Ok cases, h1) ->
  In (field, spec) (items schema) ->
  enum spec = Some e ->
  exists l,
    In (field +:+ ": not in enum", l) cases
    /\ validate_data (with_properties schema [(field, only REnum spec)]) l h1
       = (Ok (if Py.contains e (VStr "not-in-enum")
              then []
              else [field +:+ " must be one of " +:+ Py.repr_list e +:+ "."]),
          h1).
Proof.
  intros Hgen Hitem He.
  assert (Ht : exists t, type spec = Some t).
  { assert (Hok : exists c h, generate_test_cases schema h0 = (Ok c, h)) by eauto.
    pose proof (generate_test_cases_run schema h0) as Hrun.
    destruct (baseline_record (items schema) ∅) as [base | x] eqn:Hrec;
      [ | destruct Hrun as [h' Hrun]; congruence].
    apply baseline_record_types in Hrec. rewrite Forall_forall in Hrec.
    apply list_elem_of_In, Hrec in Hitem as Hty. simpl in Hty.
    destruct (type spec) as [t | ]; [eauto | contradiction]. }
  destruct Ht as [t Ht].
  destruct (generated_variant schema h0 h1 cases field spec
              {| v_field := field; v_label := field +:+ ": not in enum";
                 v_value := VStr "not-in-enum" |} Hgen Hitem)
    as (l & base & Hl & Hd).
  { unfold variants. rewrite Ht, He. rewrite !in_app_iff. right. right. left. reflexivity. }
  exists l. split; [exact Hl | ].
  rewrite (validate_data_single schema l h1 field _ (VStr "not-in-enum"))
    by (rewrite Hd; unfold variant_record; simpl; apply lookup_insert_eq).
  rewrite validate_field_only. simpl. unfold check_enum. rewrite He.
  destruct (Py.contains e (VStr "not-in-enum")); reflexivity.
Qed.

Lemma enum_variant_conditionally_rejected_witness :
  exists l,
    In ("level: not in enum", l) [("Valid case", 0%nat); ("level: not in enum", 1%nat)]
    /\ (validate_data
          (with_properties integer_enum_schema
             [("level", only REnum
                          {| type := Some "integer"; min_length := None;
                             max_length := None; pattern := None;
                             enum := Some [VInt 1; VInt 2; VInt 3];
                             minimum := None; maximum := None |})])
          l
          [ {[ "level" := VInt 0 ]}; {[ "level" := VStr "not-in-enum" ]} ]).1
       = Ok ["level must be one of [1, 2, 3]."].
Proof.
  assert (Hgen : generate_test_cases integer_enum_schema [] =
                 (Ok [("Valid case", 0%nat); ("level: not in enum", 1%nat)],
                  [ {[ "level" := VInt 0 ]}; {[ "level" := VStr "not-in-enum" ]} ]))
    by (vm_compute; reflexivity).
  destruct (enum_variant_conditionally_rejected integer_enum_schema [] _ _ "level" _
              [VInt 1; VInt 2; VInt 3] Hgen (or_introl eq_refl) eq_refl)
    as (l & Hl & Hv).
  exists l. split; [exact Hl | ]. rewrite Hv. reflexivity.
Defined.

(** ** The interactive entry of a record *)

Lemma foldIO_nil {A B} (body : A -> B -> IO A) acc (w : world) :
  foldIO body acc [] w = (Done acc, w).
Proof. reflexivity. Qed.

Lemma foldIO_cons {A B} (body : A -> B -> IO A) acc x l (w : world) :
  foldIO body acc (x :: l) w =
  match body acc x w with
  | (Done acc', w') => foldIO body acc' l w'
  | (Failed e, w') => (Failed e, w')
  end.
Proof. reflexivity. Qed.

(** One turn of the loop: it fails on a spec without type before it reads
    anything, fails at the end of the input, and otherwise takes one line
    and stores its coerced value. *)
Lemma manual_input_step_run B l u field spec (w : world) :
  match type spec, w_stdin w with
  | None, _ =>
      manual_input_step B l u (field, spec) w = (Failed (PyExn (KeyError "type")), w)
  | Some t, [] =>
      exists w', manual_input_step B l u (field, spec) w = (Failed EOFError, w')
  | Some t, a :: rest =>
      exists out,
        manual_input_step B l u (field, spec) w =
        (Done tt,
         {| w_heap := <[l := <[field := coerce B t a]> (deref (w_heap w) l)]> (w_heap w);
            w_stdin := rest;
            w_stdout := w_stdout w ++ out |})
  end.
Proof.
  unfold manual_input_step, spec_type, coerce.
  destruct (type spec) as [t | ]; [ | destruct w; reflexivity].
  unfold mbind, IO_bind, lift, input, mret, M_ret, IO_ret. simpl.
  destruct (w_stdin w) as [ | a rest] eqn:Hin; [eauto | ].
  simpl. destruct (String.eqb t "integer").
  - destruct (py_int B a) as [n | ]; simpl.
    + eexists. reflexivity.
    + unfold print. simpl. rewrite <- app_assoc. eexists. reflexivity.
  - simpl. destruct (String.eqb t "boolean"); simpl; eexists; reflexivity.
Qed.

Lemma manual_loop_done B l p : forall u (w w' : world),
  foldIO (manual_input_step B l) u p w = (Done tt, w') ->
  (l < length (w_heap w))%nat ->
  exists answers d,
    w_stdin w = answers ++ w_stdin w'
    /\ length answers = length p
    /\ manual_fill B p answers (deref (w_heap w) l) = Some d
    /\ w_heap w' = <[l := d]> (w_heap w)
    /\ exists out, w_stdout w' = w_stdout w ++ out.
Proof.
  induction p as [ | [field spec] p IH]; intros u w w' Hrun Hl.
  - rewrite foldIO_nil in Hrun. destruct u. injection Hrun as <-.
    exists [], (deref (w_heap w) l). repeat split.
    + symmetry. apply list_insert_id, deref_lookup. assumption.
    + exists []. symmetry. apply app_nil_r.
  - rewrite foldIO_cons in Hrun.
    pose proof (manual_input_step_run B l u field spec w) as Hstep.
    destruct (type spec) as [t | ] eqn:Ht; [ | rewrite Hstep in Hrun; discriminate].
    destruct (w_stdin w) as [ | a rest] eqn:Hin;
      [destruct Hstep as [w1 Hstep]; rewrite Hstep in Hrun; discriminate | ].
    destruct Hstep as [out Hstep]. rewrite Hstep in Hrun.
    apply IH in Hrun; [ | simpl; rewrite length_insert; assumption].
    destruct Hrun as (answers & d & Hans & Hlen & Hfill & Hheap & out' & Hout).
    simpl in *. rewrite deref_insert in Hfill by assumption.
    exists (a :: answers), d. rewrite Ht. repeat split.
    + simpl. congruence.
    + simpl. congruence.
    + assumption.
    + rewrite Hheap, list_insert_insert_eq. reflexivity.
    + exists (out ++ out'). rewrite Hout, app_assoc. reflexivity.
Qed.

Lemma manual_fill_other B field p : forall answers d d',
  manual_fill B p answers d = Some d' ->
  ~ In field (map fst p) ->
  d' !! field = d !! field.
Proof.
  induction p as [ | [f s] p IH]; intros answers d d' Hfill Hnot; simpl in *.
  - injection Hfill as <-. reflexivity.
  - destruct (type s) as [t | ]; [ | discriminate].
    destruct answers as [ | a answers]; [discriminate | ].
    rewrite (IH _ _ _ Hfill) by tauto. apply lookup_insert_ne. tauto.
Qed.

Lemma manual_fill_lookup B field spec p : forall answers d d',
  NoDup (map fst p) ->
  manual_fill B p answers d = Some d' ->
  In (field, spec) p ->
  exists t a, type spec = Some t /\ d' !! field = Some (coerce B t a).
Proof.
  induction p as [ | [f s] p IH]; intros answers d d' Hnd Hfill Hin; [destruct Hin | ].
  simpl in Hnd, Hfill. apply NoDup_cons in Hnd as [Hf Hnd].
  destruct (type s) as [t | ] eqn:Ht; [ | discriminate].
  destruct answers as [ | a answers]; [discriminate | ].
  destruct Hin as [[= -> ->] | Hin]; [ | eauto].
  exists t, a. split; [assumption | ].
  rewrite (manual_fill_other B field p _ _ _ Hfill).
  - apply lookup_insert_eq.
  - rewrite <- list_elem_of_In. exact Hf.
Qed.

(** A coerced value passes the type check of the type it was coerced
    for. *)
Lemma coerce_type_ok B field spec t a errors :
  type spec = Some t ->
  check_type field (coerce B t a) spec errors = errors.
Proof.
  intros Ht. unfold check_type, coerce. rewrite Ht.
  destruct (String.eqb_spec t "string") as [-> | _]; [reflexivity | ].
  destruct (String.eqb t "integer"); [reflexivity | ].
  destruct (String.eqb t "boolean"); reflexivity.
Qed.

(** X13. A record entered through [manual_test_case_input] holds every
    declared field, with a value of the declared type: validating it with
    the schema it was entered for gives what the schema gives once its
    type declarations and its required list are removed. *)
Theorem manual_record_is_typed B schema (w w' : world) l :
  NoDup (map fst (items schema)) ->
  manual_test_case_input B schema w = (Done l, w') ->
  validate_data schema l (w_heap w') = validate_data (untyped schema) l (w_heap w').
Proof.
  intros Hnd Hrun.
  unfold manual_test_case_input, mbind, IO_bind, lift, dict_new in Hrun. simpl in Hrun.
  destruct (foldIO (manual_input_step B (length (w_heap w))) tt (items schema) _)
    as [[[] | e] w1] eqn:Hloop; [ | discriminate].
  unfold mret, IO_ret in Hrun. injection Hrun as <- <-.
  apply manual_loop_done in Hloop; [ | simpl; rewrite length_app; simpl; lia].
  destruct Hloop as (answers & d & _ & _ & Hfill & Hheap & _). simpl in Hfill, Hheap.
  rewrite !validate_data_run. f_equal. f_equal.
  change (items (untyped schema))
    with (map (fun item : string * RuleSpec => (item.1, without_type item.2))
              (items schema)).
  rewrite map_map. f_equal. apply map_ext_in. intros [field spec] Hitem.
  unfold field_errors. simpl.
  assert (Hd : deref (w_heap w1) (length (w_heap w)) = d).
  { rewrite Hheap. apply deref_insert. rewrite length_app. simpl. lia. }
  rewrite Hd.
  destruct (manual_fill_lookup B field spec _ _ _ _ Hnd Hfill Hitem) as (t & a & Ht & ->).
  rewrite !validate_field_checks.
  rewrite (coerce_type_ok B field spec t a [] Ht). reflexivity.
Qed.

Lemma manual_record_is_typed_witness :
  let w' := (manual_test_case_input simple_builtins example_schema
               (console ["Al"; "x7"])).2 in
  w_heap w' = [ {[ "name" := VStr "Al"; "age" := VInt 0 ]} ]
  /\ validate_data example_schema 0%nat (w_heap w')
     = validate_data (untyped example_schema) 0%nat (w_heap w').
Proof.
  intros w'. split; [vm_compute; reflexivity | ].
  apply (manual_record_is_typed simple_builtins example_schema (console ["Al"; "x7"])).
  - simpl. repeat constructor; rewrite list_elem_of_In; simpl; intuition discriminate.
  - vm_compute. reflexivity.
Defined.

Lemma manual_loop_total B l p : forall u (w : world),
  Forall (fun item : string * RuleSpec => type item.2 <> None) p ->
  (length p <= length (w_stdin w))%nat ->
  exists w', foldIO (manual_input_step B l) u p w = (Done tt, w').
Proof.
  induction p as [ | [field spec] p IH]; intros u w Hty Hlen.
  - destruct u. rewrite foldIO_nil. eauto.
  - rewrite foldIO_cons. apply Forall_cons in Hty as [Ht Hty]. simpl in Ht, Hlen.
    pose proof (manual_input_step_run B l u field spec w) as Hstep.
    destruct (type spec) as [t | ]; [ | contradiction].
    destruct (w_stdin w) as [ | a rest] eqn:Hin; [simpl in Hlen; lia | ].
    destruct Hstep as [out ->]. apply IH; [assumption | simpl in *; lia].
Qed.

Lemma manual_loop_failure B l p : forall u (w w' : world) e,
  foldIO (manual_input_step B l) u p w = (Failed e, w') ->
  e = PyExn (KeyError "type") \/ e = EOFError.
Proof.
  induction p as [ | [field spec] p IH]; intros u w w' e Hrun.
  - rewrite foldIO_nil in Hrun. discriminate.
  - rewrite foldIO_cons in Hrun.
    pose proof (manual_input_step_run B l u field spec w) as Hstep.
    destruct (type spec) as [t | ];
      [ | rewrite Hstep in Hrun; injection Hrun as <- _; auto].
    destruct (w_stdin w) as [ | a rest].
    + destruct Hstep as [w1 Hstep]. rewrite Hstep in Hrun.
      injection Hrun as <- _. auto.
    + destruct Hstep as [out Hstep]. rewrite Hstep in Hrun. eauto.
Qed.

Lemma manual_fill_types B p : forall answers d d',
  manual_fill B p answers d = Some d' ->
  Forall (fun item : string * RuleSpec => type item.2 <> None) p.
Proof.
  induction p as [ | [f s] p IH]; intros answers d d' Hfill; [constructor | ].
  simpl in Hfill. destruct (type s) as [t | ] eqn:Ht; [ | discriminate].
  destruct answers as [ | a answers]; [discriminate | ].
  constructor; [simpl; congruence | eauto].
Qed.

(** X14. [manual_test_case_input] returns a record exactly when every
    declared field has a type and the input holds at least one line for
    each declared field; when it fails, it is with the [KeyError] of
    [spec['type']] or with [EOFError]; the [ValueError] of [int] never
    escapes. *)
Theorem manual_input_succeeds_iff B schema (w : world) :
  ((exists l w', manual_test_case_input B schema w = (Done l, w')) <->
   Forall (fun item : string * RuleSpec => type item.2 <> None) (items schema)
   /\ (length (items schema) <= length (w_stdin w))%nat)
  /\ (forall e w', manual_test_case_input B schema w = (Failed e, w') ->
                   e = PyExn (KeyError "type") \/ e = EOFError).
Proof.
  unfold manual_test_case_input, mbind, IO_bind, lift, dict_new. simpl.
  set (w0 := {| w_heap := w_heap w ++ [∅]; w_stdin := w_stdin w;
                w_stdout := w_stdout w |}).
  split; [split | ].
  - intros (l & w' & Hrun).
    destruct (foldIO (manual_input_step B (length (w_heap w))) tt (items schema) w0)
      as [[[] | e] w1] eqn:Hloop; [ | discriminate].
    apply manual_loop_done in Hloop; [ | simpl; rewrite length_app; simpl; lia].
    destruct Hloop as (answers & d & Hin & Hlen & Hfill & _). simpl in Hin. split.
    + eapply manual_fill_types; eassumption.
    + rewrite Hin, length_app. lia.
  - intros [Hty Hlen].
    destruct (manual_loop_total B (length (w_heap w)) (items schema) tt w0 Hty Hlen)
      as [w1 ->].
    unfold mret, IO_ret. eauto.
  - intros e w' Hrun.
    destruct (foldIO (manual_input_step B (length (w_heap w))) tt (items schema) w0)
      as [[[] | e1] w1] eqn:Hloop; [discriminate | ].
    injection Hrun as <- _. eapply manual_loop_failure; eassumption.
Qed.

Lemma manual_fill_keys B p : forall answers d d',
  manual_fill B p answers d = Some d' ->
  forall field, is_Some (d' !! field) <-> In field (map fst p) \/ is_Some (d !! field).
Proof.
  induction p as [ | [f s] p IH]; intros answers d d' Hfill field; simpl in *.
  - injection Hfill as <-. tauto.
  - destruct (type s) as [t | ]; [ | discriminate].
    destruct answers as [ | a answers]; [discriminate | ].
    rewrite (IH _ _ _ Hfill field), lookup_insert_is_Some.
    destruct (decide (f = field)); tauto.
Qed.

(** X15. When [manual_test_case_input] returns, it has read exactly one
    line for each declared field, written only after what was already on
    the output, left the dicts of the store as they were, and added one
    dict, the record it returns, which holds the declared fields and no
    other. *)
Theorem manual_input_effects B schema (w w' : world) l :
  manual_test_case_input B schema w = (Done l, w') ->
  l = length (w_heap w)
  /\ (exists d, w_heap w' = w_heap w ++ [d]
                /\ forall field, is_Some (d !! field) <->
                                 In field (map fst (items schema)))
  /\ (exists answers, w_stdin w = answers ++ w_stdin w'
                      /\ length answers = length (items schema))
  /\ (exists out, w_stdout w' = w_stdout w ++ out).
Proof.
  intros Hrun.
  unfold manual_test_case_input, mbind, IO_bind, lift, dict_new in Hrun. simpl in Hrun.
  destruct (foldIO (manual_input_step B (length (w_heap w))) tt (items schema) _)
    as [[[] | e] w1] eqn:Hloop; [ | discriminate].
  unfold mret, IO_ret in Hrun. injection Hrun as <- <-.
  apply manual_loop_done in Hloop; [ | simpl; rewrite length_app; simpl; lia].
  destruct Hloop as (answers & d & Hin & Hlen & Hfill & Hheap & Hout).
  simpl in Hin, Hfill, Hheap, Hout. rewrite deref_app_new in Hfill.
  split; [reflexivity | ]. split; [ | split; [exists answers; auto | exact Hout] ].
  exists d. split.
  - rewrite Hheap. replace (length (w_heap w)) with (length (w_heap w) + 0)%nat at 1 by lia.
    rewrite insert_app_r. reflexivity.
  - intros field. rewrite (manual_fill_keys _ _ _ _ _ Hfill field), lookup_empty.
    split; [intros [H | [v Hv]]; [assumption | discriminate] | auto].
Qed.

Lemma manual_input_effects_witness :
  let w' := (manual_test_case_input simple_builtins example_schema
               (console ["Al"; "x7"; "spare"])).2 in
  w_stdin w' = ["spare"]
  /\ w_stdout w' = ["Enter value for name (string): "; "Enter value for age (integer): ";
                    "Invalid integer for age, using 0." +:+ String newline EmptyString]
  /\ exists answers, ["Al"; "x7"; "spare"] = answers ++ w_stdin w'
                     /\ length answers = 2%nat.
Proof.
  intros w'. split; [vm_compute; reflexivity | ]. split; [vm_compute; reflexivity | ].
  assert (Hrun : manual_test_case_input simple_builtins example_schema
                   (console ["Al"; "x7"; "spare"]) = (Done 0%nat, w'))
    by (vm_compute; reflexivity).
  destruct (manual_input_effects _ _ _ _ _ Hrun) as (_ & _ & Hans & _).
  exact Hans.
Defined.

Lemma manual_input_succeeds_iff_witness :
  exists l w',
    manual_test_case_input simple_builtins example_schema (console ["Al"; "30"])
    = (Done l, w').
Proof.
  apply (manual_input_succeeds_iff simple_builtins example_schema (console ["Al"; "30"])).
  split; [repeat constructor; discriminate | simpl; lia].
Defined.
